(** * grabid-backend: the admission and streaming pipeline of [main.go]

    A shallow embedding of the request handlers of the Go backend
    ([AuthMiddleware], [IPRateLimiter], [RateLimitMiddleware], [handleProbe],
    [handleStream]) together with the small part of the Go standard library
    they call ([http.Error], [io.LimitReader], [io.Copy],
    [net.SplitHostPort], [strings.Split]).

    Handlers are state transformers on a [World]: the response writer of the
    request being served plus the state shared between requests (the
    concurrency semaphore, the per-IP limiter table, the clock, the log).  The
    upstream server and the token bucket of [golang.org/x/time/rate] are the
    environment: the first is a value of type [Network], the second an
    instance of the class [RateLib]. *)

From Stdlib Require Import ZArith Lia Ascii String List Bool.
From Stdlib.Strings Require Import Byte.
From stdpp Require Import gmap strings list fin_maps.
From Equations Require Import Equations.
From Equations.Prop Require Import Logic.

Local Open Scope Z_scope.

(** ** Strings *)

Module Str.

(** The empty Go string. *)
Definition empty : string := EmptyString.

Definition is_empty (s : string) : bool :=
  match s with EmptyString => true | String _ _ => false end.

(** [strings.Contains(s, string(c))] for a one-byte needle. *)
Fixpoint contains_char (c : ascii) (s : string) : bool :=
  match s with
  | EmptyString => false
  | String a s' => if Ascii.eqb a c then true else contains_char c s'
  end.

(** [strings.Split(s, string(c))] for a one-byte separator: the pieces
    between the separators, always at least one piece. *)
Fixpoint split_char (c : ascii) (s : string) : list string :=
  match s with
  | EmptyString => [EmptyString]
  | String a s' =>
      if Ascii.eqb a c then EmptyString :: split_char c s'
      else match split_char c s' with
           | [] => [String a EmptyString]
           | p :: ps => String a p :: ps
           end
  end.

(** [parts[len(parts)-1]]; the default is never used on a non-empty slice. *)
Definition last_part (parts : list string) : string :=
  List.last parts EmptyString.

Definition bytes (s : string) : list byte := list_byte_of_string s.

Definition newline : string := String "010"%char EmptyString.
Definition dquote : string := String "034"%char EmptyString.

(** Decimal digits of a natural number, most significant first, produced
    by repeated division as [strconv] does. *)
Definition digit (n : nat) : ascii := ascii_of_nat (48 + n).

Fixpoint digits_fuel (fuel : nat) (n : nat) (acc : string) : string :=
  match fuel with
  | O => acc
  | S fuel' =>
      let acc' := String (digit (n mod 10)) acc in
      match (n / 10)%nat with
      | O => acc'
      | q => digits_fuel fuel' q acc'
      end
  end.

(** [fmt.Sprintf("%d", z)]. *)
Definition of_Z (z : Z) : string :=
  let n := Z.abs_nat z in
  let ds := digits_fuel (S n) n EmptyString in
  if z <? 0 then String "-"%char ds else ds.

End Str.

(** ** [net/http]: headers, requests, the response writer *)

(** [http.Header] and [url.Values] are both [map[string][]string]. *)
Abbreviation Header := (gmap string (list string)).

Module Http.

(** [Header.Get]: the first value stored under the key, or the empty string.
    Keys are used in their canonical form throughout. *)
Definition Get (h : Header) (key : string) : string :=
  match h !! key with
  | Some (v :: _) => v
  | _ => Str.empty
  end.

(** [Header.Set]: replace whatever is stored under the key. *)
Definition Set_ (h : Header) (key value : string) : Header :=
  <[key := [value]]> h.

Definition Del (h : Header) (key : string) : Header := delete key h.

Definition MethodGet : string := "GET".
Definition MethodHead : string := "HEAD".

Definition StatusOK : Z := 200.
Definition StatusBadRequest : Z := 400.
Definition StatusUnauthorized : Z := 401.
Definition StatusMethodNotAllowed : Z := 405.
Definition StatusRequestEntityTooLarge : Z := 413.
Definition StatusTooManyRequests : Z := 429.
Definition StatusBadGateway : Z := 502.
Definition StatusServiceUnavailable : Z := 503.

(** The part of [*http.Request] the handlers read. *)
Record Request := {
  Method : string;
  RemoteAddr : string;
  ReqHeader : Header;
  Query : Header               (* [r.URL.Query()] *)
}.

(** [http.ResponseWriter].  [room] is the environment's side of the
    connection: how many more body bytes the client will take before a
    write fails ([None]: it takes everything). *)
Record ResponseWriter := {
  RespHeader : Header;
  wroteHeader : bool;
  status : Z;
  body : list byte;
  room : option nat
}.

Definition fresh (client_room : option nat) : ResponseWriter :=
  {| RespHeader := ∅; wroteHeader := false; status := 0;
     body := []; room := client_room |}.

Definition set_header (key value : string) (w : ResponseWriter) : ResponseWriter :=
  {| RespHeader := Set_ (RespHeader w) key value; wroteHeader := wroteHeader w;
     status := status w; body := body w; room := room w |}.

Definition del_header (key : string) (w : ResponseWriter) : ResponseWriter :=
  {| RespHeader := Del (RespHeader w) key; wroteHeader := wroteHeader w;
     status := status w; body := body w; room := room w |}.

(** [w.WriteHeader(code)]: only the first call commits a status. *)
Definition WriteHeader (code : Z) (w : ResponseWriter) : ResponseWriter :=
  if wroteHeader w then w
  else {| RespHeader := RespHeader w; wroteHeader := true;
          status := code; body := body w; room := room w |}.

(** [w.Write(p)]: commits status 200 if none was written, then sends [p];
    returns the writer, the number of bytes sent and whether the write
    succeeded. *)
Definition Write (p : list byte) (w : ResponseWriter) : ResponseWriter * nat * bool :=
  let w1 := WriteHeader StatusOK w in
  match room w1 with
  | None =>
      ({| RespHeader := RespHeader w1; wroteHeader := true; status := status w1;
          body := body w1 ++ p; room := None |}, length p, true)
  | Some k =>
      if (length p <=? k)%nat then
        ({| RespHeader := RespHeader w1; wroteHeader := true; status := status w1;
            body := body w1 ++ p; room := Some (k - length p)%nat |}, length p, true)
      else
        ({| RespHeader := RespHeader w1; wroteHeader := true; status := status w1;
            body := body w1 ++ firstn k p; room := Some 0%nat |}, k, false)
  end.

(** [http.Error(w, msg, code)]. *)
Definition Error (msg : string) (code : Z) (w : ResponseWriter) : ResponseWriter :=
  let w1 := del_header "Content-Length" w in
  let w2 := set_header "Content-Type" "text/plain; charset=utf-8" w1 in
  let w3 := set_header "X-Content-Type-Options" "nosniff" w2 in
  let w4 := WriteHeader code w3 in
  fst (fst (Write (Str.bytes (msg +:+ Str.newline)) w4)).

End Http.

(** ** [io]: readers, [io.LimitReader], [io.Copy] *)

Module Io.

(** An upstream body as the connection delivers it: the data arrives in
    [chunks] (one per network read), and after the last chunk the stream
    either ends ([broken = false], [io.EOF]) or the connection drops
    ([broken = true], a read error). *)
Record Reader := { chunks : list (list byte); broken : bool }.

(** Everything the upstream offers, in order. *)
Definition offered (r : Reader) : list byte := concat (chunks r).

Inductive error := ErrNil | EOF | ErrUnexpected | ErrWrite.

(** [r.Read(p)] with [len(p) = k]: at most [k] bytes of the next chunk. *)
Definition Read (k : nat) (r : Reader) : list byte * error * Reader :=
  match chunks r with
  | [] => ([], if broken r then ErrUnexpected else EOF, r)
  | c :: cs =>
      if (length c <=? k)%nat
      then (c, ErrNil, {| chunks := cs; broken := broken r |})
      else (firstn k c, ErrNil, {| chunks := skipn k c :: cs; broken := broken r |})
  end.

(** [io.LimitedReader]: [N] is the number of bytes remaining. *)
Record LimitedReader := { R : Reader; N : Z }.

Definition LimitReader (r : Reader) (n : Z) : LimitedReader := {| R := r; N := n |}.

(** What a limited reader can still deliver: the first [N] bytes of what its
    source offers (nothing when [N] is not positive). *)
Definition allowance (l : LimitedReader) : list byte :=
  firstn (Z.to_nat (N l)) (offered (R l)).

(** The [Read] method of [LimitedReader]. *)
Definition LimitedRead (k : nat) (l : LimitedReader)
  : list byte * error * LimitedReader :=
  if N l <=? 0 then ([], EOF, l)
  else
    let k' := if N l <? Z.of_nat k then Z.to_nat (N l) else k in
    let '(p, er, r') := Read k' (R l) in
    (p, er, {| R := r'; N := N l - Z.of_nat (length p) |}).

(** The state of the copy loop of [io.Copy] and its result. *)
Record CopyState := {
  src : LimitedReader;
  dst : Http.ResponseWriter;
  written : Z
}.

Record CopyResult := {
  res_dst : Http.ResponseWriter;
  res_src : LimitedReader;
  res_written : Z;
  res_err : error
}.

Inductive Step := Continue (st : CopyState) | Done (r : CopyResult).

(** One turn of the loop: read a buffer, write what was read, decide. *)
Definition copy_step (buf : positive) (st : CopyState) : Step :=
  let '(p, er, src') := LimitedRead (Pos.to_nat buf) (src st) in
  let '(dst', nw, wok) :=
    if (0 <? length p)%nat then Http.Write p (dst st) else (dst st, 0%nat, true) in
  let written' := written st + Z.of_nat nw in
  if negb wok then
    Done {| res_dst := dst'; res_src := src'; res_written := written'; res_err := ErrWrite |}
  else
    match er with
    | ErrNil => Continue {| src := src'; dst := dst'; written := written' |}
    | EOF =>
        Done {| res_dst := dst'; res_src := src'; res_written := written'; res_err := ErrNil |}
    | e =>
        Done {| res_dst := dst'; res_src := src'; res_written := written'; res_err := e |}
    end.

(** What is left to read: the loop's variant. *)
Definition pending (r : Reader) : nat :=
  list_sum (map (fun c => S (length c)) (chunks r)).

Definition variant (st : CopyState) : nat := pending (R (src st)).

(** The buffer [io.Copy] allocates: 32 KiB, or the limit when the source
    is a [LimitedReader] with fewer bytes remaining (never less than 1). *)
Definition bufsize (l : LimitedReader) : positive :=
  if N l <? 32 * 1024 then (if N l <? 1 then 1%positive else Z.to_pos (N l))
  else 32768%positive.

(** A step that continues has consumed a byte or a chunk of the source. *)
Lemma copy_step_decreases buf st st' :
  copy_step buf st = Continue st' -> (variant st' < variant st)%nat.
Proof.
  intros Hstep. destruct st as [[r n] d wr].
  unfold copy_step, LimitedRead, variant in *; simpl in *.
  destruct (n <=? 0) eqn:Hn; [discriminate|]. apply Z.leb_gt in Hn.
  set (k := if n <? Z.of_nat (Pos.to_nat buf) then Z.to_nat n else Pos.to_nat buf) in *.
  assert (Hk : (1 <= k)%nat).
  { subst k. destruct (n <? Z.of_nat (Pos.to_nat buf)); lia. }
  unfold Read in Hstep. destruct r as [[|c cs] b]; simpl in *.
  - destruct b; simpl in Hstep; discriminate.
  - unfold pending; simpl.
    destruct (length c <=? k)%nat eqn:Hc; simpl in Hstep.
    + destruct (0 <? length c)%nat; [destruct (Http.Write c d) as [[? ?] []]|];
        simpl in Hstep; try discriminate; injection Hstep as <-; simpl; lia.
    + apply Nat.leb_gt in Hc.
      destruct (0 <? length (firstn k c))%nat;
        [destruct (Http.Write (firstn k c) d) as [[? ?] []]|];
        simpl in Hstep; try discriminate; injection Hstep as <-; simpl;
        rewrite length_skipn; lia.
Qed.

(** The loop of [io.Copy]: it runs until a step is final. *)
Equations? copy_loop (buf : positive) (st : CopyState) : CopyResult
  by wf (variant st) lt :=
  copy_loop buf st with inspect (copy_step buf st) := {
    | exist _ (Done r) _ := r
    | exist _ (Continue st') Hstep := copy_loop buf st' }.
Proof. exact (copy_step_decreases _ _ _ Hstep). Qed.

(** [io.Copy(dst, src)] for a limited source. *)
Definition Copy (w : Http.ResponseWriter) (l : LimitedReader) : CopyResult :=
  copy_loop (bufsize l) {| src := l; dst := w; written := 0 |}.

End Io.

(** ** [time]: durations, instants, the clock *)

Module Time.

(** [time.Duration] is an [int64] count of nanoseconds; instants are
    nanosecond readings of the monotonic clock. *)
Definition Second : Z := 1000000000.
Definition Minute : Z := 60 * Second.
Definition maxDuration : Z := 2 ^ 63 - 1.
Definition minDuration : Z := - 2 ^ 63.

(** [t.Sub(u)]: the difference, saturated to the range of [Duration]. *)
Definition Sub (t u : Z) : Z :=
  let d := t - u in
  if maxDuration <? d then maxDuration
  else if d <? minDuration then minDuration
  else d.

(** The clock: its current reading and by how much it will have advanced
    at each of the next readings.  It never runs backwards. *)
Record Clock := { reading : Z; advances : list N }.

(** [time.Now()]. *)
Definition Now (c : Clock) : Z * Clock :=
  match advances c with
  | [] => (reading c, c)
  | d :: ds =>
      let t := reading c + Z.of_N d in
      (t, {| reading := t; advances := ds |})
  end.

(** [time.Since(t)]. *)
Definition Since (t : Z) (c : Clock) : Z * Clock :=
  let '(now, c') := Now c in (Sub now t, c').

End Time.

(** ** [net]: splitting [host:port] *)

Module Net.

(** [strings.IndexByte] and [strings.LastIndexByte]. *)
Fixpoint IndexByte (c : ascii) (s : string) : option nat :=
  match s with
  | EmptyString => None
  | String a s' => if Ascii.eqb a c then Some 0%nat else S <$> IndexByte c s'
  end.

Fixpoint LastIndexByte (c : ascii) (s : string) : option nat :=
  match s with
  | EmptyString => None
  | String a s' =>
      match LastIndexByte c s' with
      | Some i => Some (S i)
      | None => if Ascii.eqb a c then Some 0%nat else None
      end
  end.

(** The slices [s[lo:hi]] and [s[lo:]]. *)
Definition slice (s : string) (lo hi : nat) : string := String.substring lo (hi - lo) s.
Definition slice_from (s : string) (lo : nat) : string :=
  String.substring lo (String.length s - lo) s.

Definition has (c : ascii) (s : string) : bool :=
  match IndexByte c s with Some _ => true | None => false end.

(** A string without the given byte. *)
Definition lacks (c : ascii) (s : string) : Prop := has c s = false.

(** [net.SplitHostPort]: [Some (host, port)] when the library returns a nil
    error, [None] for each of its address errors. *)
Definition SplitHostPort (hostport : string) : option (string * string) :=
  match LastIndexByte ":" hostport with
  | None => None                                   (* missing port *)
  | Some i =>
      let bracketed :=
        match hostport with String "["%char _ => true | _ => false end in
      let parsed : option (string * nat * nat) :=
        if bracketed then
          match IndexByte "]" hostport with
          | None => None                           (* missing ']' *)
          | Some e =>
              if (S e =? String.length hostport)%nat then None
              else if (S e =? i)%nat then Some (slice hostport 1 e, 1%nat, S e)
              else None                            (* too many colons / missing port *)
          end
        else
          let host := slice hostport 0 i in
          if has ":" host then None                (* too many colons *)
          else Some (host, 0%nat, 0%nat) in
      match parsed with
      | None => None
      | Some (host, j, k) =>
          if has "[" (slice_from hostport j) then None
          else if has "]" (slice_from hostport k) then None
          else Some (host, slice_from hostport (S i))
      end
  end.

End Net.

(** ** The environment: the token bucket and the upstream *)

(** [golang.org/x/time/rate]: the limiter type, its constructor from a rate
    and a burst, and [Allow], which reads the clock and may take a token. *)
Class RateLib := {
  Limiter : Type;
  NewLimiter : Z -> Z -> Limiter;
  Allow : Z -> Limiter -> bool * Limiter
}.

Module Upstream.

(** [*http.Response] as the handlers read it. *)
Record Response := {
  StatusCode : Z;
  ContentLength : Z;            (* -1: not declared *)
  RHeader : Header;
  Body : Io.Reader
}.

(** The network as seen through [http.NewRequest] and [client.Do]: whether a
    request for the URL can be built, and what sending it yields (the
    error's text, or a response); and the JSON encoding of a probe result. *)
Record Network := {
  NewRequest_ok : string -> string -> bool;
  Do : string -> string -> string + Response;
  EncodeProbe : Z -> string -> list byte
}.

End Upstream.

(** ** The server: configuration, shared state, handlers *)

(** [Config]. *)
Record Config := {
  Port : string;
  GrabSecret : string;
  MaxSize : Z;                    (* [int64] *)
  MaxSizeStr : string;
  MaxConcurrent : Z;
  RateLimit : Z;
  RateBurst : Z
}.

(** The semaphore [chan struct{}]: its capacity and how many values it holds. *)
Record Chan := { chan_cap : nat; chan_len : nat }.

(** [select { case sem <- struct{}{}: ... default: ... }]: the send succeeds
    only if the buffer has room. *)
Definition try_send (c : Chan) : option Chan :=
  if (chan_len c <? chan_cap c)%nat
  then Some {| chan_cap := chan_cap c; chan_len := S (chan_len c) |}
  else None.

(** [<-sem] on a channel that holds a value. *)
Definition recv (c : Chan) : Chan :=
  {| chan_cap := chan_cap c; chan_len := Nat.pred (chan_len c) |}.

(** What [log.Printf] records. *)
Inductive LogEntry :=
| LogStreamError (e : Io.error)
| LogEncodeError.

Section Server.

Context `{RL : RateLib}.

(** [clientLimiter] and [IPRateLimiter] (the mutex is not modelled: each
    operation below runs as one step). *)
Record clientLimiter := { limiter : Limiter; lastSeen : Z }.

Record IPRateLimiter := {
  ips : gmap string clientLimiter;
  limit : Z;
  burst : Z
}.

(** The state a handler runs in: the response writer of the request and
    what the requests share. *)
Record World := {
  w : Http.ResponseWriter;
  sem : Chan;
  ipLimiter : IPRateLimiter;
  clock : Time.Clock;
  logs : list LogEntry
}.

Definition with_w (f : Http.ResponseWriter -> Http.ResponseWriter) (wd : World) : World :=
  {| w := f (w wd); sem := sem wd; ipLimiter := ipLimiter wd;
     clock := clock wd; logs := logs wd |}.

Definition with_sem (f : Chan -> Chan) (wd : World) : World :=
  {| w := w wd; sem := f (sem wd); ipLimiter := ipLimiter wd;
     clock := clock wd; logs := logs wd |}.

Definition with_limiter (l : IPRateLimiter) (c : Time.Clock) (wd : World) : World :=
  {| w := w wd; sem := sem wd; ipLimiter := l; clock := c; logs := logs wd |}.

Definition log_entry (e : LogEntry) (wd : World) : World :=
  {| w := w wd; sem := sem wd; ipLimiter := ipLimiter wd;
     clock := clock wd; logs := logs wd ++ [e] |}.

(** [http.HandlerFunc]. *)
Definition HandlerFunc : Type := Http.Request -> World -> World.

(** [http.Error(w, msg, code); return]. *)
Definition reply (msg : string) (code : Z) (wd : World) : World :=
  with_w (Http.Error msg code) wd.

(** *** AuthMiddleware *)

Definition AuthMiddleware (next : HandlerFunc) (secret : string) : HandlerFunc :=
  fun r wd =>
    if Str.is_empty secret then next r wd
    else
      let token := Http.Get (Http.ReqHeader r) "X-Grab-Token" in
      if negb (String.eqb token secret) then
        reply "Unauthorized" Http.StatusUnauthorized wd
      else next r wd.

(** *** IPRateLimiter *)

Definition NewIPRateLimiter (r b : Z) : IPRateLimiter :=
  {| ips := ∅; limit := r; burst := b |}.

(** [GetLimiter]: look the entry up or create it, refresh [lastSeen]. *)
Definition GetLimiter (ip : string) (i : IPRateLimiter) (c : Time.Clock)
  : Limiter * IPRateLimiter * Time.Clock :=
  let lim :=
    match ips i !! ip with
    | Some e => limiter e
    | None => NewLimiter (limit i) (burst i)
    end in
  let '(now, c') := Time.Now c in
  (lim,
   {| ips := <[ip := {| limiter := lim; lastSeen := now |}]> (ips i);
      limit := limit i; burst := burst i |},
   c').

(** The staleness threshold of the sweep, [3*time.Minute]. *)
Definition staleAfter : Z := 3 * Time.Minute.

(** One iteration of the loop of [Cleanup]. *)
Definition sweep_entry (acc : gmap string clientLimiter * Time.Clock)
           (kv : string * clientLimiter) : gmap string clientLimiter * Time.Clock :=
  let '(since, c') := Time.Since (lastSeen (snd kv)) (snd acc) in
  (if staleAfter <? since then delete (fst kv) (fst acc) else fst acc, c').

(** [Cleanup]: range over the entries, deleting the stale ones; each
    iteration reads the clock. *)
Definition Cleanup (i : IPRateLimiter) (c : Time.Clock) : IPRateLimiter * Time.Clock :=
  let '(m, c') := fold_left sweep_entry (map_to_list (ips i)) (ips i, c) in
  ({| ips := m; limit := limit i; burst := burst i |}, c').

(** *** RateLimitMiddleware *)

(** The key the limiter is asked for (the first lines of the handler). *)
Definition clientIP (r : Http.Request) : string :=
  let ip := Http.RemoteAddr r in
  let forwarded := Http.Get (Http.ReqHeader r) "X-Forwarded-For" in
  let ip := if negb (Str.is_empty forwarded) then forwarded else ip in
  if Str.contains_char ":" ip then
    match Net.SplitHostPort ip with
    | Some (host, _) => host
    | None => ip
    end
  else ip.

(** [limiter.GetLimiter(ip).Allow()]: the bucket returned by [GetLimiter]
    is the one stored in the table, so the token taken by [Allow] is taken
    from the entry. *)
Definition allow (ip : string) (wd : World) : bool * World :=
  let '(lim, tbl, c1) := GetLimiter ip (ipLimiter wd) (clock wd) in
  let '(now, c2) := Time.Now c1 in
  let '(ok, lim') := Allow now lim in
  let tbl' :=
    {| ips := alter (fun e => {| limiter := lim'; lastSeen := lastSeen e |}) ip (ips tbl);
       limit := limit tbl; burst := burst tbl |} in
  (ok, with_limiter tbl' c2 wd).

Definition RateLimitMiddleware (next : HandlerFunc) : HandlerFunc :=
  fun r wd =>
    let ip := clientIP r in
    let '(ok, wd1) := allow ip wd in
    if negb ok then reply "Too Many Requests" Http.StatusTooManyRequests wd1
    else next r wd1.

(** *** handleProbe *)

Definition handleProbe (net : Upstream.Network) : HandlerFunc :=
  fun r wd =>
    if negb (String.eqb (Http.Method r) Http.MethodHead)
       && negb (String.eqb (Http.Method r) Http.MethodGet)
    then reply "Method not allowed" Http.StatusMethodNotAllowed wd
    else
      let urlParam := Http.Get (Http.Query r) "url" in
      if Str.is_empty urlParam then
        reply "Missing url parameter" Http.StatusBadRequest wd
      else if negb (Upstream.NewRequest_ok net Http.MethodHead urlParam) then
        reply "Invalid URL" Http.StatusBadRequest wd
      else
        match Upstream.Do net Http.MethodHead urlParam with
        | inl err =>
            reply ("Failed to reach source: " +:+ err) Http.StatusBadGateway wd
        | inr resp =>
            if 400 <=? Upstream.StatusCode resp then
              reply ("Source returned error: " +:+ Str.of_Z (Upstream.StatusCode resp))
                    Http.StatusBadGateway wd
            else
              let size := Upstream.ContentLength resp in
              let type := Http.Get (Upstream.RHeader resp) "Content-Type" in
              let w1 := Http.set_header "Content-Type" "application/json" (w wd) in
              let '(w2, _, ok) := Http.Write (Upstream.EncodeProbe net size type) w1 in
              let wd2 := with_w (fun _ => w2) wd in
              if negb ok then log_entry LogEncodeError wd2 else wd2
        end.

(** *** handleStream *)

(** The "header butler": the three headers set before the relay. *)
Definition butler (urlParam : string) (resp : Upstream.Response)
           (w0 : Http.ResponseWriter) : Http.ResponseWriter :=
  let w1 :=
    if 0 <? Upstream.ContentLength resp
    then Http.set_header "Content-Length" (Str.of_Z (Upstream.ContentLength resp)) w0
    else w0 in
  let contentType := Http.Get (Upstream.RHeader resp) "Content-Type" in
  let w2 :=
    if negb (Str.is_empty contentType)
    then Http.set_header "Content-Type" contentType w1
    else w1 in
  let contentDisposition := Http.Get (Upstream.RHeader resp) "Content-Disposition" in
  if negb (Str.is_empty contentDisposition) then
    Http.set_header "Content-Disposition" contentDisposition w2
  else
    let parts := Str.split_char "/" urlParam in
    if (0 <? length parts)%nat then
      let filename := Str.last_part parts in
      if negb (Str.is_empty filename) then
        Http.set_header "Content-Disposition"
          ("attachment; filename=" +:+ Str.dquote +:+ filename +:+ Str.dquote) w2
      else w2
    else w2.

(** The body of [handleStream] after the slot was taken: everything from
    the [url] check to the end of the relay. *)
Definition stream (net : Upstream.Network) (cfg : Config) : HandlerFunc :=
  fun r wd =>
    let urlParam := Http.Get (Http.Query r) "url" in
    if Str.is_empty urlParam then
      reply "Missing url parameter" Http.StatusBadRequest wd
    else if negb (Upstream.NewRequest_ok net Http.MethodGet urlParam) then
      reply "Invalid URL" Http.StatusBadRequest wd
    else
      match Upstream.Do net Http.MethodGet urlParam with
      | inl err =>
          reply ("Failed to reach source: " +:+ err) Http.StatusBadGateway wd
      | inr resp =>
          if 400 <=? Upstream.StatusCode resp then
            reply ("Source returned error: " +:+ Str.of_Z (Upstream.StatusCode resp))
                  Http.StatusBadGateway wd
          else if MaxSize cfg <? Upstream.ContentLength resp then
            reply "Payload Too Large" Http.StatusRequestEntityTooLarge wd
          else
            let w1 := butler urlParam resp (w wd) in
            let limitedBody := Io.LimitReader (Upstream.Body resp) (MaxSize cfg) in
            let res := Io.Copy w1 limitedBody in
            let wd1 := with_w (fun _ => Io.res_dst res) wd in
            match Io.res_err res with
            | Io.ErrNil => wd1
            | e => log_entry (LogStreamError e) wd1
            end
      end.

(** [handleStream]: the method check, the concurrency check, the guarded
    body, and the deferred release of the slot. *)
Definition handleStream (net : Upstream.Network) (cfg : Config) : HandlerFunc :=
  fun r wd =>
    if negb (String.eqb (Http.Method r) Http.MethodGet) then
      reply "Method not allowed" Http.StatusMethodNotAllowed wd
    else
      match try_send (sem wd) with
      | Some sem1 =>
          let wd1 := stream net cfg r (with_sem (fun _ => sem1) wd) in
          with_sem recv wd1
      | None =>
          reply "Service Unavailable" Http.StatusServiceUnavailable wd
      end.

(** A stream request that gets as far as an upstream response: it is a
    [GET], a slot is free, it names a URL for which a request can be built,
    and the upstream answers it with [resp]. *)
Definition answered (net : Upstream.Network) (r : Http.Request) (wd : World)
           (url : string) (resp : Upstream.Response) : Prop :=
  Http.Method r = Http.MethodGet /\
  (chan_len (sem wd) < chan_cap (sem wd))%nat /\
  Http.Get (Http.Query r) "url" = url /\
  url <> EmptyString /\
  Upstream.NewRequest_ok net Http.MethodGet url = true /\
  Upstream.Do net Http.MethodGet url = inr resp.

(** *** The routes of [main] *)

Definition probeRoute (net : Upstream.Network) (cfg : Config) : HandlerFunc :=
  AuthMiddleware (handleProbe net) (GrabSecret cfg).

Definition streamRoute (net : Upstream.Network) (cfg : Config) : HandlerFunc :=
  AuthMiddleware (RateLimitMiddleware (handleStream net cfg)) (GrabSecret cfg).

End Server.

(** ** [strings] and [strconv]: what the configuration parsers call *)

Module GoStrings.

(** The functions below work on the bytes of a string.  They are Go's on
    strings of ASCII bytes; on other strings Go decodes UTF-8 (Unicode
    upper case, Unicode white space), which is not modelled. *)
Definition ascii_byte (c : ascii) : bool := (N_of_ascii c <? 128)%N.

Fixpoint is_ascii (s : string) : bool :=
  match s with
  | EmptyString => true
  | String c s' => ascii_byte c && is_ascii s'
  end.

(** ['a' <= c && c <= 'z'] and [c -= 'a' - 'A']. *)
Definition is_lower (c : ascii) : bool :=
  ((97 <=? N_of_ascii c) && (N_of_ascii c <=? 122))%N.

Definition upper (c : ascii) : ascii :=
  if is_lower c then ascii_of_N (N_of_ascii c - 32) else c.

(** [strings.ToUpper]. *)
Fixpoint ToUpper (s : string) : string :=
  match s with
  | EmptyString => EmptyString
  | String c s' => String (upper c) (ToUpper s')
  end.

(** The ASCII white space: tab, line feed, vertical tab, form feed,
    carriage return, space. *)
Definition is_space (c : ascii) : bool :=
  let n := N_of_ascii c in
  ((9 <=? n) && (n <=? 13) || (n =? 32))%N.

Fixpoint trim_left (s : string) : string :=
  match s with
  | EmptyString => EmptyString
  | String c s' => if is_space c then trim_left s' else s
  end.

Fixpoint trim_right (s : string) : string :=
  match s with
  | EmptyString => EmptyString
  | String c s' =>
      match trim_right s' with
      | EmptyString => if is_space c then EmptyString else String c EmptyString
      | t => String c t
      end
  end.

(** [strings.TrimSpace]. *)
Definition TrimSpace (s : string) : string := trim_right (trim_left s).

(** [strings.HasSuffix]:
    [len(s) >= len(suffix) && s[len(s)-len(suffix):] == suffix]. *)
Definition HasSuffix (s suffix : string) : bool :=
  (String.length suffix <=? String.length s)%nat
  && String.eqb (Net.slice_from s (String.length s - String.length suffix)) suffix.

(** [strings.TrimSuffix]. *)
Definition TrimSuffix (s suffix : string) : string :=
  if HasSuffix s suffix
  then Net.slice s 0 (String.length s - String.length suffix)
  else s.

End GoStrings.

Module Strconv.

(** [int64] arithmetic wraps around. *)
Definition wrap64 (z : Z) : Z := (z + 2 ^ 63) mod 2 ^ 64 - 2 ^ 63.

(** The value of a decimal digit. *)
Definition digit_val (c : ascii) : option Z :=
  let n := N_of_ascii c in
  if ((48 <=? n) && (n <=? 57))%N then Some (Z.of_N n - 48) else None.

(** The digit loop of [ParseUint] in base 10, on an unbounded accumulator. *)
Fixpoint digits_val (s : string) (acc : Z) : option Z :=
  match s with
  | EmptyString => Some acc
  | String c s' =>
      match digit_val c with
      | Some d => digits_val s' (10 * acc + d)
      | None => None
      end
  end.

(** [strconv.ParseUint(s, 10, 64)] without its range check: a non-empty
    string of decimal digits.  The range is checked by [ParseInt], which
    turns every value outside [int64] into an error. *)
Definition ParseUint (s : string) : option Z :=
  if Str.is_empty s then None else digits_val s 0.

(** [strconv.ParseInt(s, 10, 64)]: [Some] value when the error is nil.  An
    optional sign, then digits; a value outside [int64] is a range error. *)
Definition ParseInt (s : string) : option Z :=
  match s with
  | EmptyString => None
  | String c rest =>
      let neg := Ascii.eqb c "-" in
      let digits := if Ascii.eqb c "+" || Ascii.eqb c "-" then rest else s in
      match ParseUint digits with
      | None => None
      | Some un =>
          if negb neg && (2 ^ 63 <=? un) then None
          else if neg && (2 ^ 63 <? un) then None
          else Some (if neg then - un else un)
      end
  end.

(** [strconv.Atoi], for the 64-bit [int]. *)
Definition Atoi (s : string) : option Z := ParseInt s.

End Strconv.

(** Classes of characters, used to state what the parsers accept. *)
Module Chars.

Definition is_digit (c : ascii) : bool :=
  ((48 <=? N_of_ascii c) && (N_of_ascii c <=? 57))%N.

(** Every character of the string satisfies the test. *)
Fixpoint all (p : ascii -> bool) (s : string) : bool :=
  match s with
  | EmptyString => true
  | String c s' => p c && all p s'
  end.

(** The last character of the string satisfies the test (false on the empty
    string). *)
Fixpoint last_is (p : ascii -> bool) (s : string) : bool :=
  match s with
  | EmptyString => false
  | String c EmptyString => p c
  | String _ s' => last_is p s'
  end.

End Chars.

(** ** Reading the configuration *)

Definition GiB : Z := 1024 * 1024 * 1024.

(** [ParseSize]. *)
Definition ParseSize (sizeStr : string) : Z :=
  let sizeStr := GoStrings.TrimSpace (GoStrings.ToUpper sizeStr) in
  if Str.is_empty sizeStr then GiB
  else
    let '(multiplier, sizeStr) :=
      if GoStrings.HasSuffix sizeStr "GB" then
        (1024 * 1024 * 1024, GoStrings.TrimSuffix sizeStr "GB")
      else if GoStrings.HasSuffix sizeStr "MB" then
        (1024 * 1024, GoStrings.TrimSuffix sizeStr "MB")
      else if GoStrings.HasSuffix sizeStr "KB" then
        (1024, GoStrings.TrimSuffix sizeStr "KB")
      else if GoStrings.HasSuffix sizeStr "B" then
        (1, GoStrings.TrimSuffix sizeStr "B")
      else (1, sizeStr) in
    match Strconv.ParseInt (GoStrings.TrimSpace sizeStr) with
    | None => GiB
    | Some val => Strconv.wrap64 (val * multiplier)
    end.

(** [float64] values that are integers, as integers. *)
Module Float64.

(** The conversion [float64(i)] of an [int64]: exact while the magnitude is
    below 2^53; above, the 53 most significant bits are kept and the rest is
    rounded to nearest, ties to even (so 2^53 + 1 becomes 2^53 and 2^63 - 1
    becomes 2^63).  The result is always an integer. *)
Definition of_int64 (i : Z) : Z :=
  let a := Z.abs i in
  if a <? 2 ^ 53 then i
  else
    let e := Z.log2 a - 52 in
    let q := a / 2 ^ e in
    let rest := a mod 2 ^ e in
    let half := 2 ^ (e - 1) in
    let q' := if (half <? rest) || ((rest =? half) && Z.odd q) then q + 1 else q in
    Z.sgn i * (q' * 2 ^ e).

End Float64.

(** [ParseRateLimit]: the rate [rate.Limit(r)], a [float64] whose value is
    an integer, and the burst. *)
Definition ParseRateLimit (rateStr : string) : Z * Z :=
  let rateStr := GoStrings.TrimSpace rateStr in
  match Str.split_char "-" rateStr with
  | [p0; p1] =>
      match Strconv.Atoi p0, Strconv.Atoi p1 with
      | Some r, Some b => (Float64.of_int64 r, b)
      | _, _ => (1, 5)
      end
  | _ => (1, 5)
  end.

(** [LoadConfig], reading the environment through [Getenv] (the empty
    string for a variable that is not set). *)
Definition LoadConfig (Getenv : string -> string) : Config :=
  let port := Getenv "PORT" in
  let port := if Str.is_empty port then "8080"%string else port in
  let maxSizeStr := Getenv "GRAB_MAX_SIZE" in
  let maxSizeStr := if Str.is_empty maxSizeStr then "1GB"%string else maxSizeStr in
  let maxConcurrentStr := Getenv "GRAB_MAX_CONCURRENT" in
  let maxConcurrent :=
    if negb (Str.is_empty maxConcurrentStr) then
      match Strconv.Atoi maxConcurrentStr with
      | Some val => val
      | None => 5
      end
    else 5 in
  let rateLimitStr := Getenv "GRAB_RATE_LIMIT" in
  let rateLimitStr := if Str.is_empty rateLimitStr then "1-5"%string else rateLimitStr in
  let '(r, b) := ParseRateLimit rateLimitStr in
  {| Port := port;
     GrabSecret := Getenv "GRAB_SECRET";
     MaxSize := ParseSize maxSizeStr;
     MaxSizeStr := maxSizeStr;
     MaxConcurrent := maxConcurrent;
     RateLimit := r;
     RateBurst := b |}.

(** ** The info endpoint of [main] *)

Section Info.

Context `{RL : RateLib}.

(** The handler registered for [/api/v1/info]; [encode] is the JSON encoding
    of an [InfoResponse].  The handler ignores the encoder's error. *)
Definition handleInfo (encode : string -> Z -> list byte) (cfg : Config) : HandlerFunc :=
  fun _ wd =>
    let w1 := Http.set_header "Content-Type" "application/json" (w wd) in
    with_w (fun _ => fst (fst (Http.Write (encode (MaxSizeStr cfg) (MaxConcurrent cfg)) w1))) wd.

Definition infoRoute (encode : string -> Z -> list byte) (cfg : Config) : HandlerFunc :=
  AuthMiddleware (handleInfo encode cfg) (GrabSecret cfg).

End Info.

(** ** The stream handler with its semaphore operations recorded *)

(** The operations on the semaphore channel: a send that went through and a
    receive. *)
Inductive SemOp := SemSend | SemRecv.

Section Slot.

Context `{RL : RateLib}.

(** The frame of [handleStream]: the method check, the [select] that sends
    on the semaphore or gives up, and the deferred receive that runs when
    the function returns.  [body] is the rest of the function, which runs
    between the two; the operations done on the channel are returned beside
    the world. *)
Definition slotted (body : HandlerFunc) : Http.Request -> World -> World * list SemOp :=
  fun r wd =>
    if negb (String.eqb (Http.Method r) Http.MethodGet) then
      (reply "Method not allowed" Http.StatusMethodNotAllowed wd, [])
    else
      match try_send (sem wd) with
      | Some sem1 =>
          let wd1 := body r (with_sem (fun _ => sem1) wd) in
          (with_sem recv wd1, [SemSend; SemRecv])
      | None =>
          (reply "Service Unavailable" Http.StatusServiceUnavailable wd, [])
      end.

(** [handleStream], with what it did to the semaphore. *)
Definition handleStream_ops (net : Upstream.Network) (cfg : Config)
  : Http.Request -> World -> World * list SemOp :=
  slotted (stream net cfg).

End Slot.

(** ** The specification's reading of a URL *)

Module SpecUrl.

(** The specification names the file after "the last path segment of the
    target URL".  This is that notion for a URL of the generic form
    [scheme://authority/path?query#fragment]: the query and the fragment are
    not part of the path, and neither are the scheme and the authority. *)

(** The text before the first occurrence of a byte (all of it if none). *)
Definition before (c : ascii) (s : string) : string :=
  match Net.IndexByte c s with
  | Some i => Net.slice s 0 i
  | None => s
  end.

Definition path (url : string) : string :=
  let hier := before "?" (before "#" url) in
  match String.index 0 "://" hier with
  | Some i =>
      let rest := Net.slice_from hier (i + 3) in
      match Net.IndexByte "/" rest with
      | Some j => Net.slice_from rest j
      | None => EmptyString
      end
  | None => hier
  end.

Definition last_path_segment (url : string) : string :=
  Str.last_part (Str.split_char "/" (path url)).

End SpecUrl.

(** ** Concrete environments, used to run the handlers on examples *)

Module Sample.

(** A bucket of [burst] tokens that is never refilled. *)
#[global] Instance bucket : RateLib := {|
  Limiter := nat;
  NewLimiter := fun _ b => Z.to_nat b;
  Allow := fun _ l => match l with O => (false, O) | S n => (true, n) end
|}.

Definition payload (n : nat) : list byte := repeat "x"%byte n.

Definition cfg (secret : string) (maxSize : Z) : Config :=
  {| Port := "8080"; GrabSecret := secret; MaxSize := maxSize; MaxSizeStr := "1KB";
     MaxConcurrent := 1; RateLimit := 1; RateBurst := 5 |}.

(** A request with at most one token header, one forwarded-for header and
    one [url] parameter (an empty string leaves the entry out). *)
Definition entry (key value : string) (h : Header) : Header :=
  if Str.is_empty value then h else <[key := [value]]> h.

Definition request (method remote token forwarded url : string) : Http.Request :=
  {| Http.Method := method;
     Http.RemoteAddr := remote;
     Http.ReqHeader := entry "X-Grab-Token" token (entry "X-Forwarded-For" forwarded ∅);
     Http.Query := entry "url" url ∅ |}.

(** An upstream that answers every URL with the same response. *)
Definition answering (resp : Upstream.Response) : Upstream.Network :=
  {| Upstream.NewRequest_ok := fun _ _ => true;
     Upstream.Do := fun _ _ => inr resp;
     Upstream.EncodeProbe := fun _ _ => [] |}.

(** An upstream that cannot be reached. *)
Definition unreachable : Upstream.Network :=
  {| Upstream.NewRequest_ok := fun _ _ => true;
     Upstream.Do := fun _ _ => inl "dial tcp: connection refused"%string;
     Upstream.EncodeProbe := fun _ _ => [] |}.

Definition response (code len : Z) (hdr : Header) (chunks : list (list byte))
  : Upstream.Response :=
  {| Upstream.StatusCode := code; Upstream.ContentLength := len;
     Upstream.RHeader := hdr;
     Upstream.Body := {| Io.chunks := chunks; Io.broken := false |} |}.

(** A world with [used] of [cap] slots taken, an empty limiter table and a
    client that accepts every byte. *)
Definition world (cap used : nat) : World :=
  {| w := Http.fresh None;
     sem := {| chan_cap := cap; chan_len := used |};
     ipLimiter := NewIPRateLimiter 1 5;
     clock := {| Time.reading := 0; Time.advances := [] |};
     logs := [] |}.

(** A table entry: the tokens left in its bucket and when it was last seen. *)
Definition seen (tokens : nat) (t : Z) : clientLimiter :=
  @Build_clientLimiter bucket tokens t.

(** A [GET] on the stream route for the given URL, from a fixed peer. *)
Definition get (url : string) : Http.Request :=
  request "GET" "10.0.0.7:5151" EmptyString EmptyString url.

(** A downstream handler that answers 200, as the one of the tests. *)
Definition ok_handler : HandlerFunc :=
  fun _ wd => with_w (Http.WriteHeader Http.StatusOK) wd.

End Sample.

(** ** More scenarios *)

Module Scenario.

(** An environment with one variable set. *)
Definition env (name value : string) : string -> string :=
  fun key => if String.eqb key name then value else EmptyString.

(** An upstream body that breaks off after its chunks. *)
Definition dropping (code len : Z) (hdr : Header) (chunks : list (list byte))
  : Upstream.Response :=
  {| Upstream.StatusCode := code; Upstream.ContentLength := len;
     Upstream.RHeader := hdr;
     Upstream.Body := {| Io.chunks := chunks; Io.broken := true |} |}.

(** An encoder for probe results, good enough to tell results apart. *)
Definition encode_probe (size : Z) (type : string) : list byte :=
  Str.bytes (Str.of_Z size +:+ " " +:+ type).

(** An upstream that answers [HEAD] with a response and refuses anything
    else. *)
Definition head_only (resp : Upstream.Response) : Upstream.Network :=
  {| Upstream.NewRequest_ok := fun _ _ => true;
     Upstream.Do := fun method _ =>
       if String.eqb method "HEAD" then inr resp else inl "refused"%string;
     Upstream.EncodeProbe := encode_probe |}.

(** An upstream that answers every method with the same response. *)
Definition any_method (resp : Upstream.Response) : Upstream.Network :=
  {| Upstream.NewRequest_ok := fun _ _ => true;
     Upstream.Do := fun _ _ => inr resp;
     Upstream.EncodeProbe := encode_probe |}.

(** A world whose client takes only [k] more bytes. *)
Definition slow_client (k : nat) : World :=
  {| w := Http.fresh (Some k);
     sem := {| chan_cap := 1; chan_len := 0 |};
     ipLimiter := NewIPRateLimiter 1 5;
     clock := {| Time.reading := 0; Time.advances := [] |};
     logs := [] |}.

(** A world with a given limiter table and clock. *)
Definition at_time (tbl : IPRateLimiter) (c : Time.Clock) : World :=
  {| w := Http.fresh None;
     sem := {| chan_cap := 1; chan_len := 0 |};
     ipLimiter := tbl;
     clock := c;
     logs := [] |}.

End Scenario.

(** * Properties *)

(** ** [http.Error] *)

Section HttpFacts.

Import Http.

Lemma WriteHeader_status code rw :
  wroteHeader rw = false -> status (WriteHeader code rw) = code.
Proof. intros H. unfold WriteHeader. now rewrite H. Qed.

Lemma WriteHeader_committed code rw : wroteHeader (WriteHeader code rw) = true.
Proof. unfold WriteHeader. destruct (wroteHeader rw) eqn:E; auto. Qed.

Lemma Write_status p rw :
  wroteHeader rw = true -> status (fst (fst (Write p rw))) = status rw.
Proof.
  intros H. unfold Write, WriteHeader. rewrite H.
  destruct (room rw); [destruct (_ <=? _)%nat|]; reflexivity.
Qed.

Lemma WriteHeader_room code rw : room (WriteHeader code rw) = room rw.
Proof. unfold WriteHeader. destruct (wroteHeader rw); reflexivity. Qed.

Lemma WriteHeader_body code rw : body (WriteHeader code rw) = body rw.
Proof. unfold WriteHeader. destruct (wroteHeader rw); reflexivity. Qed.

Lemma Write_body_all p rw :
  room rw = None -> body (fst (fst (Write p rw))) = body rw ++ p.
Proof.
  intros H. unfold Write. rewrite WriteHeader_room, H. simpl.
  now rewrite WriteHeader_body.
Qed.

(** On a response that has not been committed, [http.Error] commits the
    given status. *)
Lemma Error_status msg code rw :
  wroteHeader rw = false -> status (Error msg code rw) = code.
Proof.
  intros H. unfold Error.
  rewrite Write_status by apply WriteHeader_committed.
  now apply WriteHeader_status.
Qed.

(** When the client takes every byte, the body sent by [http.Error] is the
    message followed by a newline. *)
Lemma Error_body msg code rw :
  room rw = None ->
  body (Error msg code rw) = body rw ++ Str.bytes (msg +:+ Str.newline).
Proof.
  intros H. unfold Error. rewrite Write_body_all.
  - now rewrite WriteHeader_body.
  - now rewrite WriteHeader_room.
Qed.

End HttpFacts.

(** ** The admission gate *)

Section Admission.

Context `{RL : RateLib}.

(** C3.  With an empty secret [AuthMiddleware] runs the downstream handler
    on every request.  With a non-empty secret it runs the downstream
    handler when the [X-Grab-Token] header equals the secret, and in every
    other case (another value, or no header) the outcome is that of
    [http.Error(w, "Unauthorized", 401)] alone, which does not involve the
    downstream handler and commits status 401 on a fresh response. *)
Theorem AuthMiddleware_admits_iff_token
        (next : HandlerFunc) (secret : string) (r : Http.Request) (wd : World) :
  (secret = EmptyString -> AuthMiddleware next secret r wd = next r wd) /\
  (secret <> EmptyString ->
     (Http.Get (Http.ReqHeader r) "X-Grab-Token" = secret ->
        AuthMiddleware next secret r wd = next r wd) /\
     (Http.Get (Http.ReqHeader r) "X-Grab-Token" <> secret ->
        AuthMiddleware next secret r wd = reply "Unauthorized" 401 wd /\
        (Http.wroteHeader (w wd) = false ->
           Http.status (w (AuthMiddleware next secret r wd)) = 401))).
Proof.
  unfold AuthMiddleware. split.
  - intros ->. reflexivity.
  - intros Hs. destruct secret as [|a s]; [congruence|]. simpl Str.is_empty. cbv iota.
    split.
    + intros ->. now rewrite String.eqb_refl.
    + intros Hne. apply String.eqb_neq in Hne. rewrite Hne. simpl negb. cbv iota.
      split; [reflexivity|]. intros Hw. unfold reply, with_w; simpl.
      now apply Error_status.
Qed.

End Admission.

Lemma AuthMiddleware_admits_iff_token_witness :
  let r := Sample.request "GET" "10.0.0.7:5151" "wrong" EmptyString EmptyString in
  let wd := Sample.world 1 0 in
  AuthMiddleware Sample.ok_handler "mysecret" r wd = reply "Unauthorized" 401 wd /\
  Http.status (w (AuthMiddleware Sample.ok_handler "mysecret" r wd)) = 401.
Proof.
  intros r wd.
  destruct (AuthMiddleware_admits_iff_token Sample.ok_handler "mysecret" r wd) as [_ H].
  destruct (H ltac:(discriminate)) as [_ H'].
  destruct (H' ltac:(vm_compute; discriminate)) as [H1 H2].
  split; [exact H1 | apply H2; reflexivity].
Defined.

(** ** The clock *)

Section ClockFacts.

Import Time.

Lemma Now_monotone c t c' :
  Now c = (t, c') -> reading c <= t /\ reading c' = t.
Proof.
  unfold Now. destruct (advances c) as [|d ds]; intros [= <- <-]; simpl; lia.
Qed.

Lemma Sub_monotone t t' u : t <= t' -> Sub t u <= Sub t' u.
Proof.
  intros H. unfold Sub, maxDuration, minDuration.
  repeat match goal with |- context [?a <? ?b] => destruct (Z.ltb_spec a b) end; lia.
Qed.

Lemma staleAfter_seconds : staleAfter = 180 * Second.
Proof. reflexivity. Qed.

End ClockFacts.

(** ** The eviction sweep *)

Section Sweep.

Context `{RL : RateLib}.

(** The sweep only deletes: a key that is absent stays absent. *)
Lemma sweep_keeps_absent l (m : gmap string clientLimiter) c ip :
  m !! ip = None -> fst (fold_left sweep_entry l (m, c)) !! ip = None.
Proof.
  revert m c. induction l as [|[k e] l IH]; intros m c Hm; [exact Hm|].
  simpl. unfold sweep_entry at 2; simpl.
  destruct (Time.Since (lastSeen e) c) as [since c'].
  apply IH. destruct (staleAfter <? since); [|exact Hm].
  destruct (decide (k = ip)) as [->|Hne].
  - apply lookup_delete_eq.
  - now rewrite lookup_delete_ne.
Qed.

(** An entry of the range that is stale at a time not after the current
    clock reading is gone at the end of the loop. *)
Lemma sweep_deletes_stale l (m : gmap string clientLimiter) c t0 ip e :
  (ip, e) ∈ l ->
  t0 <= Time.reading c ->
  staleAfter < Time.Sub t0 (lastSeen e) ->
  fst (fold_left sweep_entry l (m, c)) !! ip = None.
Proof.
  revert m c. induction l as [|[k e'] l IH]; intros m c Hin Ht Hstale.
  - now apply elem_of_nil in Hin.
  - simpl. unfold sweep_entry at 2; simpl. unfold Time.Since.
    destruct (Time.Now c) as [now c'] eqn:Hnow.
    apply Now_monotone in Hnow as [Hle Hc'].
    apply elem_of_cons in Hin as [[= <- <-]|Hin].
    + apply sweep_keeps_absent.
      assert (Hs : (staleAfter <? Time.Sub now (lastSeen e)) = true).
      { apply Z.ltb_lt. eapply Z.lt_le_trans; [exact Hstale|].
        apply Sub_monotone. lia. }
      rewrite Hs. apply lookup_delete_eq.
    + eapply IH; eauto. lia.
Qed.

(** [GetLimiter] leaves the entry of the key stamped with the clock's reading. *)
Lemma GetLimiter_stamps ip (i : IPRateLimiter) c0 :
  exists e, ips (snd (fst (GetLimiter ip i c0))) !! ip = Some e /\
            lastSeen e = fst (Time.Now c0).
Proof.
  unfold GetLimiter. destruct (Time.Now c0) as [now c1]. simpl.
  rewrite lookup_insert_eq. eauto.
Qed.

(** C4.  The staleness threshold is 180 seconds.  After [Cleanup], an entry
    of the table whose [lastSeen] was more than 180 seconds in the past when
    the sweep started is absent from the table, and the sweep adds no entry.
    [lastSeen] is the time of the last [GetLimiter] for the key: an IP last
    asked for more than 180 seconds before a sweep of the table starts is
    absent after that sweep. *)
Theorem Cleanup_evicts_stale (i : IPRateLimiter) (c : Time.Clock) (ip : string) :
  (forall e, ips i !! ip = Some e ->
             180 * Time.Second < Time.Sub (Time.reading c) (lastSeen e) ->
             ips (fst (Cleanup i c)) !! ip = None) /\
  (ips i !! ip = None -> ips (fst (Cleanup i c)) !! ip = None) /\
  (forall c0, 180 * Time.Second < Time.Sub (Time.reading c) (fst (Time.Now c0)) ->
              ips (fst (Cleanup (snd (fst (GetLimiter ip i c0))) c)) !! ip = None).
Proof.
  assert (Hstale : forall (t : IPRateLimiter) e,
             ips t !! ip = Some e ->
             180 * Time.Second < Time.Sub (Time.reading c) (lastSeen e) ->
             ips (fst (Cleanup t c)) !! ip = None).
  { intros t e Hin Hold. unfold Cleanup.
    destruct (fold_left sweep_entry (map_to_list (ips t)) (ips t, c)) as [m c'] eqn:Hf.
    simpl. change m with (fst (m, c')). rewrite <- Hf.
    eapply sweep_deletes_stale with (t0 := Time.reading c) (e := e).
    - now apply elem_of_map_to_list.
    - lia.
    - now rewrite staleAfter_seconds. }
  split; [|split].
  - intros e. apply Hstale.
  - intros Hn. unfold Cleanup.
    destruct (fold_left sweep_entry (map_to_list (ips i)) (ips i, c)) as [m c'] eqn:Hf.
    simpl. change m with (fst (m, c')). rewrite <- Hf.
    now apply sweep_keeps_absent.
  - intros c0 Hold.
    destruct (GetLimiter_stamps ip i c0) as (e & He & Hseen).
    apply (Hstale _ e He). now rewrite Hseen.
Qed.

End Sweep.

Lemma Cleanup_evicts_stale_witness :
  let idle := Sample.seen 5 0 in
  let busy := Sample.seen 2 (100 * Time.Second) in
  let tbl := {| ips := <["10.0.0.1" := idle]> (<["10.0.0.2" := busy]> ∅);
                limit := 1; burst := 5 |} in
  let c := {| Time.reading := 181 * Time.Second; Time.advances := [7%N; 7%N] |} in
  ips (fst (Cleanup tbl c)) !! "10.0.0.1" = None /\
  ips (fst (Cleanup tbl c)) !! "10.0.0.2" = Some busy.
Proof.
  intros idle busy tbl c. split.
  - destruct (Cleanup_evicts_stale tbl c "10.0.0.1") as [H _].
    apply (H idle); [reflexivity | vm_compute; reflexivity].
  - vm_compute. reflexivity.
Defined.

(** ** Splitting host and port *)

Section NetFacts.

Import Net.

Lemma has_cons c a s : has c (String a s) = Ascii.eqb a c || has c s.
Proof.
  unfold has; simpl. destruct (Ascii.eqb a c); [reflexivity|].
  destruct (IndexByte c s); reflexivity.
Qed.

Lemma has_app c a b : has c (a +:+ b) = has c a || has c b.
Proof.
  induction a as [|x a IH]; [reflexivity|].
  change (String x a +:+ b) with (String x (a +:+ b)).
  rewrite !has_cons, IH. now rewrite orb_assoc.
Qed.

Lemma contains_char_has c s : Str.contains_char c s = has c s.
Proof.
  induction s as [|a s IH]; [reflexivity|].
  rewrite has_cons. simpl. rewrite IH. now destruct (Ascii.eqb a c).
Qed.

Lemma LastIndexByte_lacks c s : lacks c s -> LastIndexByte c s = None.
Proof.
  unfold lacks. induction s as [|a s IH]; [reflexivity|].
  rewrite has_cons. intros [Ha Hs]%orb_false_elim. simpl.
  now rewrite (IH Hs), Ha.
Qed.

Lemma LastIndexByte_app c a b :
  lacks c b -> LastIndexByte c (a +:+ String c b) = Some (String.length a).
Proof.
  intros Hb. induction a as [|x a IH].
  - simpl. now rewrite (LastIndexByte_lacks _ _ Hb), Ascii.eqb_refl.
  - change (String x a +:+ String c b) with (String x (a +:+ String c b)).
    simpl. now rewrite IH.
Qed.

Lemma IndexByte_app c a b :
  lacks c a -> IndexByte c (a +:+ String c b) = Some (String.length a).
Proof.
  unfold lacks. induction a as [|x a IH].
  - intros _. simpl. now rewrite Ascii.eqb_refl.
  - rewrite has_cons. intros [Hx Ha]%orb_false_elim.
    change (String x a +:+ String c b) with (String x (a +:+ String c b)).
    simpl. now rewrite Hx, (IH Ha).
Qed.

Lemma substring_all s : String.substring 0 (String.length s) s = s.
Proof. induction s as [|a s IH]; [reflexivity|]. simpl. now rewrite IH. Qed.

Lemma substring_prefix a b :
  String.substring 0 (String.length a) (a +:+ b) = a.
Proof.
  induction a as [|x a IH].
  - simpl. destruct b; reflexivity.
  - change (String x a +:+ b) with (String x (a +:+ b)). simpl. now rewrite IH.
Qed.

Lemma substring_skip a b n :
  String.substring (String.length a) n (a +:+ b) = String.substring 0 n b.
Proof.
  induction a as [|x a IH]; [reflexivity|].
  change (String x a +:+ b) with (String x (a +:+ b)). simpl. exact IH.
Qed.

Lemma str_length_app a b :
  String.length (a +:+ b) = (String.length a + String.length b)%nat.
Proof.
  induction a as [|x a IH]; [reflexivity|].
  change (String x a +:+ b) with (String x (a +:+ b)). simpl. now rewrite IH.
Qed.

Lemma slice_from_app a b : slice_from (a +:+ b) (String.length a) = b.
Proof.
  unfold slice_from. rewrite substring_skip, str_length_app.
  replace (String.length a + String.length b - String.length a)%nat
    with (String.length b) by lia.
  apply substring_all.
Qed.

Lemma slice_from_0 s : slice_from s 0 = s.
Proof. unfold slice_from. rewrite Nat.sub_0_r. apply substring_all. Qed.

(** [host:port] splits into its two parts when neither contains a colon
    or a bracket. *)
Lemma SplitHostPort_plain host port :
  lacks ":" host -> lacks "[" host -> lacks "]" host ->
  lacks ":" port -> lacks "[" port -> lacks "]" port ->
  SplitHostPort (host +:+ String ":" port) = Some (host, port).
Proof.
  intros Hc Hl Hr Pc Pl Pr. unfold SplitHostPort.
  rewrite (LastIndexByte_app _ _ _ Pc).
  assert (Hb : match host +:+ String ":" port with
               | String "["%char _ => true | _ => false end = false).
  { destruct host as [|x host]; [reflexivity|].
    unfold lacks in Hl. rewrite has_cons in Hl.
    apply orb_false_elim in Hl as [Hx _].
    change (String x host +:+ String ":" port) with (String x (host +:+ String ":" port)).
    apply Ascii.eqb_neq in Hx.
    destruct x as [[] [] [] [] [] [] [] []]; try reflexivity. congruence. }
  rewrite Hb. unfold slice. rewrite Nat.sub_0_r, substring_prefix, Hc.
  rewrite slice_from_0, !has_app, !has_cons, Hl, Hr, Pl, Pr. simpl.
  change (S (String.length host)) with (String.length (String ":" host)).
  replace (host +:+ String ":" port) with ((host +:+ ":") +:+ port).
  2:{ clear. induction host as [|x h IH]; [reflexivity|].
      change (String x h +:+ ":") with (String x (h +:+ ":")).
      change (String x (h +:+ ":") +:+ port) with (String x ((h +:+ ":") +:+ port)).
      now rewrite IH. }
  replace (String.length (String ":" host)) with (String.length (host +:+ ":")).
  2:{ rewrite str_length_app. simpl. lia. }
  now rewrite slice_from_app.
Qed.

Lemma app_assoc_str a b c : (a +:+ b) +:+ c = a +:+ (b +:+ c).
Proof.
  induction a as [|x a IH]; [reflexivity|].
  change ((String x a +:+ b) +:+ c) with (String x ((a +:+ b) +:+ c)).
  now rewrite IH.
Qed.

(** [[host]:port] splits into its two parts when the host contains no
    bracket and the port no colon or bracket; the host may contain colons. *)
Lemma SplitHostPort_bracketed host port :
  lacks "[" host -> lacks "]" host ->
  lacks ":" port -> lacks "[" port -> lacks "]" port ->
  SplitHostPort (String "[" (host +:+ String "]" (String ":" port))) = Some (host, port).
Proof.
  intros Hl Hr Pc Pl Pr.
  set (a := String "[" (host +:+ "]")).
  assert (Ea : String.length a = S (S (String.length host))).
  { subst a. simpl. rewrite str_length_app. simpl. lia. }
  assert (E1 : String "[" (host +:+ String "]" (String ":" port)) = a +:+ String ":" port).
  { subst a. change (String "[" (host +:+ "]") +:+ String ":" port)
      with (String "[" ((host +:+ "]") +:+ String ":" port)).
    now rewrite app_assoc_str. }
  assert (E2 : a +:+ String ":" port = (a +:+ ":") +:+ port).
  { now rewrite app_assoc_str. }
  unfold SplitHostPort.
  rewrite E1 at 1. rewrite (LastIndexByte_app _ _ _ Pc), Ea.
  assert (Ei : IndexByte "]" (String "[" (host +:+ String "]" (String ":" port)))
               = Some (S (String.length host))).
  { simpl. now rewrite (IndexByte_app _ _ _ Hr). }
  rewrite Ei.
  assert (El : String.length (String "[" (host +:+ String "]" (String ":" port)))
               = S (S (S (String.length host + String.length port)))).
  { simpl. rewrite str_length_app. simpl. lia. }
  rewrite El.
  replace (S (S (String.length host)) =? S (S (S (String.length host + String.length port))))%nat
    with false by (symmetry; apply Nat.eqb_neq; lia).
  rewrite Nat.eqb_refl.
  assert (Eh : slice (String "[" (host +:+ String "]" (String ":" port))) 1
                     (S (String.length host)) = host).
  { unfold slice. simpl. rewrite Nat.sub_0_r. apply substring_prefix. }
  rewrite Eh.
  assert (Ej : slice_from (String "[" (host +:+ String "]" (String ":" port))) 1
               = host +:+ String "]" (String ":" port)).
  { change (String "[" (host +:+ String "]" (String ":" port)))
      with ("[" +:+ (host +:+ String "]" (String ":" port))).
    apply (slice_from_app "["). }
  rewrite Ej, has_app, !has_cons, Hl, Pl. simpl.
  assert (Ek : slice_from (String "[" (host +:+ String "]" (String ":" port)))
                          (S (S (String.length host))) = String ":" port).
  { rewrite E1, <- Ea. apply slice_from_app. }
  rewrite Ek, has_cons, Pr. simpl.
  assert (Ep : slice_from (String "[" (host +:+ String "]" (String ":" port)))
                          (S (S (S (String.length host)))) = port).
  { rewrite E1, E2.
    replace (S (S (S (String.length host)))) with (String.length (a +:+ ":")).
    - apply slice_from_app.
    - rewrite str_length_app, Ea. simpl. lia. }
  now rewrite Ep.
Qed.

End NetFacts.

(** ** The client key of the rate limiter *)

Section ClientKey.

Context `{RL : RateLib}.

(** The table entry of the key asked for is refreshed with the clock's
    reading, whatever [Allow] answers. *)
Lemma allow_refreshes ip wd :
  exists e, ips (ipLimiter (snd (allow ip wd))) !! ip = Some e /\
            lastSeen e = fst (Time.Now (clock wd)).
Proof.
  unfold allow, GetLimiter.
  destruct (Time.Now (clock wd)) as [now c1]. destruct (Time.Now c1) as [now2 c2].
  destruct (Allow now2 _) as [ok lim']. simpl.
  rewrite lookup_alter_eq, lookup_insert_eq. simpl. eauto.
Qed.

(** The other keys of the table are left as they were. *)
Lemma allow_other ip ip' wd :
  ip <> ip' -> ips (ipLimiter (snd (allow ip wd))) !! ip' = ips (ipLimiter wd) !! ip'.
Proof.
  intros Hne. unfold allow, GetLimiter.
  destruct (Time.Now (clock wd)) as [now c1]. destruct (Time.Now c1) as [now2 c2].
  destruct (Allow now2 _) as [ok lim']. simpl.
  now rewrite lookup_alter_ne, lookup_insert_ne.
Qed.

(** C5, as the code has it.  [RateLimitMiddleware] asks the limiter for the
    key [clientIP r] (the entry under that key is the one refreshed), where
    the value chosen is the [X-Forwarded-For] header when it is present and
    the peer address otherwise, and the port is stripped from whichever was
    chosen: a value without a colon, or one that [net.SplitHostPort]
    refuses, is the key as it is; [host:port] and [[host]:port] give [host]. *)
Theorem clientIP_forwarded_or_peer_without_port
        (next : HandlerFunc) (r : Http.Request) (wd : World) :
  let forwarded := Http.Get (Http.ReqHeader r) "X-Forwarded-For" in
  let chosen := if Str.is_empty forwarded then Http.RemoteAddr r else forwarded in
  (RateLimitMiddleware next r wd =
     if fst (allow (clientIP r) wd) then next r (snd (allow (clientIP r) wd))
     else reply "Too Many Requests" 429 (snd (allow (clientIP r) wd))) /\
  (exists e, ips (ipLimiter (snd (allow (clientIP r) wd))) !! clientIP r = Some e /\
             lastSeen e = fst (Time.Now (clock wd))) /\
  (Net.lacks ":" chosen -> clientIP r = chosen) /\
  (Net.SplitHostPort chosen = None -> clientIP r = chosen) /\
  (forall host port,
     Net.lacks ":" host -> Net.lacks "[" host -> Net.lacks "]" host ->
     Net.lacks ":" port -> Net.lacks "[" port -> Net.lacks "]" port ->
     chosen = host +:+ String ":" port -> clientIP r = host) /\
  (forall host port,
     Net.lacks "[" host -> Net.lacks "]" host ->
     Net.lacks ":" port -> Net.lacks "[" port -> Net.lacks "]" port ->
     chosen = String "[" (host +:+ String "]" (String ":" port)) -> clientIP r = host).
Proof.
  intros forwarded chosen.
  assert (Hkey : clientIP r =
                 if Str.contains_char ":" chosen then
                   match Net.SplitHostPort chosen with
                   | Some (host, _) => host
                   | None => chosen
                   end
                 else chosen).
  { unfold clientIP. fold forwarded. subst chosen.
    destruct (Str.is_empty forwarded); reflexivity. }
  split; [|split; [|split; [|split; [|split]]]].
  - unfold RateLimitMiddleware. destruct (allow (clientIP r) wd) as [[] wd1]; reflexivity.
  - apply allow_refreshes.
  - intros Hno. rewrite Hkey, contains_char_has. unfold Net.lacks in Hno. now rewrite Hno.
  - intros Hfail. rewrite Hkey, Hfail. now destruct (Str.contains_char ":" chosen).
  - intros host port Hc Hl Hr Pc Pl Pr E. rewrite Hkey, contains_char_has, E.
    rewrite (SplitHostPort_plain _ _ Hc Hl Hr Pc Pl Pr).
    now rewrite has_app, has_cons, Ascii.eqb_refl, orb_true_r.
  - intros host port Hl Hr Pc Pl Pr E. rewrite Hkey, contains_char_has, E.
    rewrite (SplitHostPort_bracketed _ _ Hl Hr Pc Pl Pr).
    now rewrite has_cons, has_app, !has_cons, Ascii.eqb_refl, !orb_true_r.
Qed.

End ClientKey.

(** C5 as stated fails: a forwarded-for value that carries a port is not
    used raw.  With [X-Forwarded-For: 10.0.0.1:4711] the limiter is asked
    for [10.0.0.1], and no entry is made under the raw value. *)
Lemma clientIP_forwarded_not_raw :
  let r := Sample.request "GET" "192.0.2.9:40000" EmptyString "10.0.0.1:4711" EmptyString in
  let wd := RateLimitMiddleware Sample.ok_handler r (Sample.world 1 0) in
  Http.Get (Http.ReqHeader r) "X-Forwarded-For" = "10.0.0.1:4711" /\
  clientIP r = "10.0.0.1" /\
  clientIP r <> Http.Get (Http.ReqHeader r) "X-Forwarded-For" /\
  ips (ipLimiter wd) !! "10.0.0.1:4711" = None /\
  (exists e, ips (ipLimiter wd) !! "10.0.0.1" = Some e).
Proof.
  vm_compute. repeat split; try reflexivity; [discriminate | eexists; reflexivity].
Qed.

Lemma clientIP_forwarded_or_peer_without_port_witness :
  let r := Sample.request "GET" "192.0.2.9:40000" EmptyString EmptyString EmptyString in
  clientIP r = "192.0.2.9".
Proof.
  intros r.
  destruct (clientIP_forwarded_or_peer_without_port Sample.ok_handler r (Sample.world 1 0))
    as (_ & _ & _ & _ & H & _).
  apply (H "192.0.2.9" "40000"); reflexivity.
Defined.

(** ** The capped relay: [io.Copy] from an [io.LimitReader] *)

Section CopyFacts.

Import Io.

Lemma copy_loop_eq buf st :
  copy_loop buf st =
  match copy_step buf st with Done r => r | Continue st' => copy_loop buf st' end.
Proof.
  rewrite copy_loop_equation_1. unfold inspect. simpl.
  destruct (copy_step buf st); reflexivity.
Qed.

(** What [Write] does to the response: the headers stay, the body grows by
    a prefix of the buffer, by all of it when the write succeeds, and a
    client that takes everything never fails a write. *)
Lemma Write_sends p rw rw' n ok :
  Http.Write p rw = (rw', n, ok) ->
  Http.RespHeader rw' = Http.RespHeader rw /\
  (exists p' q, p = p' ++ q /\ Http.body rw' = Http.body rw ++ p' /\
                n = length p' /\ (ok = true -> q = [])) /\
  (Http.room rw = None -> ok = true /\ Http.room rw' = None).
Proof.
  unfold Http.Write. rewrite WriteHeader_room.
  assert (Hh : Http.RespHeader (Http.WriteHeader Http.StatusOK rw) = Http.RespHeader rw).
  { unfold Http.WriteHeader. destruct (Http.wroteHeader rw); reflexivity. }
  destruct (Http.room rw) as [k|].
  - destruct (length p <=? k)%nat eqn:Hk; intros [= <- <- <-]; simpl;
      rewrite WriteHeader_body, Hh.
    + split; [reflexivity|]. split; [|discriminate].
      exists p, []. rewrite app_nil_r. auto.
    + split; [reflexivity|]. split; [|discriminate].
      apply Nat.leb_gt in Hk.
      exists (firstn k p), (skipn k p). rewrite firstn_skipn.
      repeat split; [rewrite length_firstn; lia | discriminate].
  - intros [= <- <- <-]; simpl. rewrite WriteHeader_body, Hh.
    split; [reflexivity|]. split; [|auto].
    exists p, []. rewrite app_nil_r. auto.
Qed.

(** What [Read] through the limit delivers is the front of the allowance;
    an error or end of stream comes with no data and an empty allowance. *)
Lemma LimitedRead_allowance k l p er l' :
  (1 <= k)%nat ->
  LimitedRead k l = (p, er, l') ->
  allowance l = p ++ allowance l' /\ (er <> ErrNil -> allowance l = []).
Proof.
  intros Hk. unfold LimitedRead, allowance.
  destruct (Z.leb_spec (N l) 0) as [Hn|Hn].
  - intros [= <- <- <-]. replace (Z.to_nat (N l)) with 0%nat by lia. auto.
  - set (k' := if N l <? Z.of_nat k then Z.to_nat (N l) else k).
    assert (Hk' : (1 <= k' <= Z.to_nat (N l))%nat).
    { subst k'. destruct (Z.ltb_spec (N l) (Z.of_nat k)); lia. }
    unfold Read, offered. destruct (R l) as [[|c cs] b]; simpl.
    + intros [= <- <- <-]. simpl. rewrite !firstn_nil. auto.
    + destruct (length c <=? k')%nat eqn:Hc; intros [= <- <- <-]; simpl.
      * apply Nat.leb_le in Hc. split; [|congruence].
        rewrite firstn_app, firstn_all2 by lia. f_equal. f_equal. lia.
      * apply Nat.leb_gt in Hc. split; [|congruence].
        rewrite length_firstn, Nat.min_l by lia.
        rewrite <- (firstn_skipn k' c) at 1. rewrite <- app_assoc.
        rewrite firstn_app, length_firstn, Nat.min_l by lia.
        rewrite firstn_all2 by (rewrite length_firstn; lia).
        f_equal. f_equal. lia.
Qed.

(** The relay appends to the response body a prefix of the allowance of the
    source and leaves the headers alone; when the client takes every byte
    it appends the whole allowance. *)
Lemma copy_loop_sends buf st :
  exists sent rest,
    Http.body (res_dst (copy_loop buf st)) = Http.body (dst st) ++ sent /\
    allowance (src st) = sent ++ rest /\
    Http.RespHeader (res_dst (copy_loop buf st)) = Http.RespHeader (dst st) /\
    (Http.room (dst st) = None -> rest = []) /\
    res_written (copy_loop buf st) = written st + Z.of_nat (length sent).
Proof.
  remember (variant st) as n eqn:Hn. revert st Hn.
  induction n as [n IH] using lt_wf_ind. intros st Hn.
  rewrite copy_loop_eq.
  destruct (copy_step buf st) as [st'|r] eqn:Hstep.
  - pose proof (copy_step_decreases _ _ _ Hstep) as Hdec.
    destruct (IH (variant st') ltac:(lia) st' eq_refl)
      as (sent & rest & Hb & Ha & Hh & Hr & Hw).
    unfold copy_step in Hstep.
    destruct (LimitedRead (Pos.to_nat buf) (src st)) as [[p er] src'] eqn:Hread.
    apply LimitedRead_allowance in Hread as [Hal _]; [|lia].
    destruct (0 <? length p)%nat eqn:Hp.
    + destruct (Http.Write p (dst st)) as [[d' nw] wok] eqn:Hwr.
      apply Write_sends in Hwr as (Hh' & (p' & q & Ep & Eb & En & Eq) & Hroom).
      destruct wok; simpl in Hstep; [|discriminate].
      destruct er; try discriminate. injection Hstep as <-. simpl in *.
      specialize (Eq eq_refl). subst q. rewrite app_nil_r in Ep. subst p'.
      exists (p ++ sent), rest. rewrite Hb, Eb, Ha in *.
      rewrite Hal, Hh, Hh', Hw, length_app, <- !app_assoc.
      repeat split; try reflexivity; [|lia].
      intros Hnone. apply Hr. now apply Hroom.
    + apply Nat.ltb_ge in Hp. assert (p = []) as -> by (destruct p; simpl in *; [auto|lia]).
      simpl in Hstep. destruct er; try discriminate. injection Hstep as <-. simpl in *.
      exists sent, rest. rewrite Hal. simpl. repeat split; auto. lia.
  - clear IH. unfold copy_step in Hstep.
    destruct (LimitedRead (Pos.to_nat buf) (src st)) as [[p er] src'] eqn:Hread.
    apply LimitedRead_allowance in Hread as [Hal Herr]; [|lia].
    destruct (0 <? length p)%nat eqn:Hp.
    + destruct (Http.Write p (dst st)) as [[d' nw] wok] eqn:Hwr.
      apply Write_sends in Hwr as (Hh' & (p' & q & Ep & Eb & En & Eq) & Hroom).
      destruct wok; simpl in Hstep.
      * specialize (Eq eq_refl). subst q. rewrite app_nil_r in Ep. subst p'.
        assert (Hal' : allowance (src st) = []).
        { apply Herr. destruct er; try discriminate; congruence. }
        rewrite Hal' in Hal. symmetry in Hal. apply app_eq_nil in Hal as [-> _].
        simpl in Hp. discriminate.
      * injection Hstep as <-. simpl.
        exists p', (q ++ allowance src'). rewrite Hal, Ep, <- app_assoc.
        repeat split; auto; [|lia].
        intros Hnone. destruct (Hroom Hnone) as [? _]. discriminate.
    + apply Nat.ltb_ge in Hp. assert (p = []) as -> by (destruct p; simpl in *; [auto|lia]).
      simpl in Hstep. destruct er; try discriminate; injection Hstep as <-; simpl;
        exists [], (allowance (src st)); rewrite app_nil_r;
        repeat split; auto; try lia; intros _; apply Herr; discriminate.
Qed.

End CopyFacts.

(** ** The stream handler *)

Section Stream.

Context `{RL : RateLib}.

Lemma is_empty_false s : s <> EmptyString -> Str.is_empty s = false.
Proof. destruct s; [congruence | reflexivity]. Qed.

Lemma is_empty_true s : Str.is_empty s = true -> s = EmptyString.
Proof. destruct s; [reflexivity | discriminate]. Qed.

Lemma recv_try_send c c' : try_send c = Some c' -> recv c' = c.
Proof.
  unfold try_send. destruct (chan_len c <? chan_cap c)%nat; [|discriminate].
  intros [= <-]. destruct c; reflexivity.
Qed.

Lemma try_send_free c :
  (chan_len c < chan_cap c)%nat ->
  try_send c = Some {| chan_cap := chan_cap c; chan_len := S (chan_len c) |}.
Proof. intros H. unfold try_send. apply Nat.ltb_lt in H. now rewrite H. Qed.

Lemma try_send_full c : (chan_cap c <= chan_len c)%nat -> try_send c = None.
Proof. intros H. unfold try_send. apply Nat.ltb_ge in H. now rewrite H. Qed.

(** The guarded body touches only the response writer and the log. *)
Lemma stream_sem net cfg r wd : sem (stream net cfg r wd) = sem wd.
Proof.
  unfold stream.
  repeat match goal with
         | |- context [if ?b then _ else _] => destruct b
         | |- context [match ?x with inl _ => _ | inr _ => _ end] => destruct x
         | |- context [match Io.res_err ?x with _ => _ end] => destruct (Io.res_err x)
         end; reflexivity.
Qed.

(** The slot taken by [handleStream] is given back on every path. *)
Lemma handleStream_sem net cfg r wd : sem (handleStream net cfg r wd) = sem wd.
Proof.
  unfold handleStream. destruct (negb _); [reflexivity|].
  destruct (try_send (sem wd)) as [s1|] eqn:E; [|reflexivity].
  simpl. rewrite stream_sem. simpl. now apply recv_try_send.
Qed.

(** The response of a request that was answered by the upstream. *)
Lemma handleStream_answered net cfg r wd url resp :
  answered net r wd url resp ->
  w (handleStream net cfg r wd) =
  if 400 <=? Upstream.StatusCode resp then
    Http.Error ("Source returned error: " +:+ Str.of_Z (Upstream.StatusCode resp)) 502 (w wd)
  else if MaxSize cfg <? Upstream.ContentLength resp then
    Http.Error "Payload Too Large" 413 (w wd)
  else
    Io.res_dst (Io.Copy (butler url resp (w wd))
                        (Io.LimitReader (Upstream.Body resp) (MaxSize cfg))).
Proof.
  intros (Hm & Hfree & Hurl & Hne & Hreq & Hdo).
  unfold handleStream. rewrite Hm, String.eqb_refl. simpl negb. cbv iota.
  rewrite (try_send_free _ Hfree). simpl.
  unfold stream. rewrite Hurl, (is_empty_false _ Hne), Hreq. simpl negb. cbv iota.
  rewrite Hdo.
  destruct (400 <=? Upstream.StatusCode resp); [reflexivity|].
  destruct (MaxSize cfg <? Upstream.ContentLength resp); [reflexivity|].
  destruct (Io.res_err _); reflexivity.
Qed.

(** The header butler sets headers and nothing else. *)
Lemma butler_rest url resp w0 :
  Http.body (butler url resp w0) = Http.body w0 /\
  Http.room (butler url resp w0) = Http.room w0 /\
  Http.status (butler url resp w0) = Http.status w0 /\
  Http.wroteHeader (butler url resp w0) = Http.wroteHeader w0.
Proof.
  unfold butler.
  repeat match goal with |- context [if ?b then _ else _] => destruct b end;
    simpl; auto.
Qed.

(** [io.Copy] on a limited source, started on writer [w0]. *)
Lemma Copy_sends w0 l :
  exists sent rest,
    Http.body (Io.res_dst (Io.Copy w0 l)) = Http.body w0 ++ sent /\
    Io.allowance l = sent ++ rest /\
    Http.RespHeader (Io.res_dst (Io.Copy w0 l)) = Http.RespHeader w0 /\
    (Http.room w0 = None -> rest = []) /\
    Io.res_written (Io.Copy w0 l) = Z.of_nat (length sent).
Proof.
  unfold Io.Copy.
  destruct (copy_loop_sends (Io.bufsize l) {| Io.src := l; Io.dst := w0; Io.written := 0 |})
    as (sent & rest & H1 & H2 & H3 & H4 & H5).
  exists sent, rest. simpl in *. auto.
Qed.

(** C1.  A stream request answered by the upstream with a status below 400
    and a declared length that is absent (-1) or within the cap: whatever the
    upstream then offers and however the client behaves, the handler appends
    to the response body a prefix of the offered bytes that is no longer
    than the cap (empty when the cap is not positive); when the client takes
    every byte this prefix is the first [MaxSize] offered bytes, so an
    upstream that offers more than the cap gets exactly [MaxSize] bytes
    relayed. *)
Theorem relay_never_exceeds_cap
        (net : Upstream.Network) (cfg : Config) (r : Http.Request) (wd : World)
        (url : string) (resp : Upstream.Response) :
  answered net r wd url resp ->
  Upstream.StatusCode resp < 400 ->
  Upstream.ContentLength resp <= MaxSize cfg ->
  exists sent rest,
    Http.body (w (handleStream net cfg r wd)) = Http.body (w wd) ++ sent /\
    Io.offered (Upstream.Body resp) = sent ++ rest /\
    Z.of_nat (length sent) <= Z.max 0 (MaxSize cfg) /\
    (Http.room (w wd) = None ->
       sent = firstn (Z.to_nat (MaxSize cfg)) (Io.offered (Upstream.Body resp))) /\
    (Http.room (w wd) = None ->
       0 <= MaxSize cfg < Z.of_nat (length (Io.offered (Upstream.Body resp))) ->
       Z.of_nat (length sent) = MaxSize cfg).
Proof.
  intros Hans Hcode Hlen.
  rewrite (handleStream_answered _ _ _ _ _ _ Hans).
  replace (400 <=? Upstream.StatusCode resp) with false by (symmetry; apply Z.leb_gt; lia).
  replace (MaxSize cfg <? Upstream.ContentLength resp) with false
    by (symmetry; apply Z.ltb_ge; lia).
  destruct (Copy_sends (butler url resp (w wd))
                       (Io.LimitReader (Upstream.Body resp) (MaxSize cfg)))
    as (sent & rest & Hb & Ha & _ & Hr & _).
  destruct (butler_rest url resp (w wd)) as (Bb & Br & _ & _).
  rewrite Bb in Hb. rewrite Br in Hr.
  unfold Io.allowance in Ha. simpl in Ha.
  set (n := Z.to_nat (MaxSize cfg)) in *.
  set (data := Io.offered (Upstream.Body resp)) in *.
  assert (Hsent : (length sent <= n)%nat).
  { assert (Hl : length (firstn n data) = length (sent ++ rest)) by now rewrite Ha.
    rewrite length_firstn, length_app in Hl. lia. }
  exists sent, (rest ++ skipn n data). split; [exact Hb|].
  split; [rewrite app_assoc, <- Ha; symmetry; apply firstn_skipn|].
  split; [subst n; lia|].
  split.
  - intros Hroom. rewrite (Hr Hroom), app_nil_r in Ha. now symmetry.
  - intros Hroom Hmore. rewrite (Hr Hroom), app_nil_r in Ha.
    rewrite <- Ha, length_firstn. subst n. lia.
Qed.

(** C2, as the code has it.  A stream request answered by the upstream with
    a declared length above the cap is refused before anything is relayed:
    when the upstream's status is below 400 the response is that of
    [http.Error(w, "Payload Too Large", 413)], and when it is 400 or more
    (the status is looked at first) it is that of
    [http.Error(w, "Source returned error: <code>", 502)].  Either way the
    response does not depend on the upstream body: on a fresh response the
    status is 413, respectively 502, and, sent to a client that takes it,
    the body is the message alone. *)
Theorem oversize_declared_is_413
        (net : Upstream.Network) (cfg : Config) (r : Http.Request) (wd : World)
        (url : string) (resp : Upstream.Response) :
  answered net r wd url resp ->
  MaxSize cfg < Upstream.ContentLength resp ->
  (Upstream.StatusCode resp < 400 ->
     w (handleStream net cfg r wd) = Http.Error "Payload Too Large" 413 (w wd) /\
     (Http.wroteHeader (w wd) = false -> Http.status (w (handleStream net cfg r wd)) = 413) /\
     (Http.room (w wd) = None ->
        Http.body (w (handleStream net cfg r wd)) =
        Http.body (w wd) ++ Str.bytes ("Payload Too Large" +:+ Str.newline))) /\
  (400 <= Upstream.StatusCode resp ->
     w (handleStream net cfg r wd) =
       Http.Error ("Source returned error: " +:+ Str.of_Z (Upstream.StatusCode resp))
                  502 (w wd) /\
     (Http.wroteHeader (w wd) = false -> Http.status (w (handleStream net cfg r wd)) = 502) /\
     (Http.room (w wd) = None ->
        Http.body (w (handleStream net cfg r wd)) =
        Http.body (w wd)
        ++ Str.bytes (("Source returned error: " +:+ Str.of_Z (Upstream.StatusCode resp))
                      +:+ Str.newline))).
Proof.
  intros Hans Hlen.
  rewrite (handleStream_answered _ _ _ _ _ _ Hans).
  replace (MaxSize cfg <? Upstream.ContentLength resp) with true
    by (symmetry; apply Z.ltb_lt; lia).
  split; intros Hcode.
  - replace (400 <=? Upstream.StatusCode resp) with false by (symmetry; apply Z.leb_gt; lia).
    split; [reflexivity|]. split.
    + apply Error_status.
    + apply Error_body.
  - replace (400 <=? Upstream.StatusCode resp) with true by (symmetry; apply Z.leb_le; lia).
    split; [reflexivity|]. split.
    + apply Error_status.
    + apply Error_body.
Qed.

End Stream.

(** Discharges [answered] and the side conditions on closed examples. *)
Ltac closed_example :=
  unfold answered;
  repeat match goal with |- _ /\ _ => split end;
  try (vm_compute; first [reflexivity | lia | discriminate | intros [=]]).

(** An upstream that declares no length and offers 7 bytes, cap 5: the
    first 5 are relayed. *)
Lemma relay_never_exceeds_cap_witness :
  let resp := Sample.response 200 (-1) ∅ [Sample.payload 3; Sample.payload 4] in
  let out := handleStream (Sample.answering resp) (Sample.cfg EmptyString 5)
                          (Sample.get "http://example.com/a.bin") (Sample.world 1 0) in
  exists sent rest,
    Http.body (w out) = [] ++ sent /\
    Sample.payload 7 = sent ++ rest /\
    Z.of_nat (length sent) <= 5 /\
    Z.of_nat (length sent) = 5.
Proof.
  intros resp out.
  destruct (relay_never_exceeds_cap (Sample.answering resp) (Sample.cfg EmptyString 5)
              (Sample.get "http://example.com/a.bin") (Sample.world 1 0)
              "http://example.com/a.bin" resp)
    as (sent & rest & H1 & H2 & H3 & _ & H5); [closed_example ..|].
  exists sent, rest. repeat split; [exact H1 | exact H2 | exact H3 |].
  apply H5; closed_example.
Defined.

(** An upstream that declares 2000 bytes against a cap of 1024. *)
Lemma oversize_declared_is_413_witness :
  let resp := Sample.response 200 2000 ∅ [Sample.payload 10] in
  let out := handleStream (Sample.answering resp) (Sample.cfg EmptyString 1024)
                          (Sample.get "http://example.com/a.bin") (Sample.world 1 0) in
  Http.status (w out) = 413 /\
  Http.body (w out) = Str.bytes ("Payload Too Large" +:+ Str.newline).
Proof.
  intros resp out.
  destruct (oversize_declared_is_413 (Sample.answering resp) (Sample.cfg EmptyString 1024)
              (Sample.get "http://example.com/a.bin") (Sample.world 1 0)
              "http://example.com/a.bin" resp)
    as [H _]; [closed_example ..|].
  destruct (H ltac:(vm_compute; reflexivity)) as (_ & H2 & H3).
  split; [apply H2; reflexivity | apply H3; reflexivity].
Defined.

(** C2 as stated fails: the upstream's status is looked at before the
    declared length.  An upstream that answers 404 and declares 3000 bytes
    against a cap of 1024 gets the request refused with 502, not 413. *)
Lemma oversize_declared_by_a_404_is_502 :
  let resp := Sample.response 404 3000 ∅ [Sample.payload 9] in
  let cfg := Sample.cfg EmptyString 1024 in
  let r := Sample.get "http://example.com/a.bin" in
  let out := handleStream (Sample.answering resp) cfg r (Sample.world 1 0) in
  answered (Sample.answering resp) r (Sample.world 1 0) "http://example.com/a.bin" resp /\
  MaxSize cfg < Upstream.ContentLength resp /\
  Http.status (w out) = 502 /\
  Http.status (w out) <> 413.
Proof.
  intros resp cfg r out. split; [closed_example|].
  vm_compute. repeat split; try reflexivity; discriminate.
Qed.

(** ** A declared length equal to the cap *)

Section AtTheCap.

Context `{RL : RateLib}.

Lemma Write_status_cases p rw :
  Http.status (fst (fst (Http.Write p rw))) = Http.status rw \/
  Http.status (fst (fst (Http.Write p rw))) = 200.
Proof.
  unfold Http.Write, Http.WriteHeader.
  destruct (Http.wroteHeader rw); simpl;
    (destruct (Http.room rw); [destruct (_ <=? _)%nat|]); simpl; auto.
Qed.

(** The relay commits status 200 or leaves the status as it was. *)
Lemma copy_loop_status buf st :
  Http.status (Io.res_dst (Io.copy_loop buf st)) = Http.status (Io.dst st) \/
  Http.status (Io.res_dst (Io.copy_loop buf st)) = 200.
Proof.
  remember (Io.variant st) as n eqn:Hn. revert st Hn.
  induction n as [n IH] using lt_wf_ind. intros st Hn.
  rewrite copy_loop_eq.
  destruct (Io.copy_step buf st) as [st'|res] eqn:Hstep.
  - pose proof (Io.copy_step_decreases _ _ _ Hstep) as Hdec.
    destruct (IH (Io.variant st') ltac:(lia) st' eq_refl) as [H|H]; [|auto].
    rewrite H. clear IH H.
    unfold Io.copy_step in Hstep.
    destruct (Io.LimitedRead _ _) as [[p er] src'].
    pose proof (Write_status_cases p (Io.dst st)) as Hw.
    destruct (0 <? length p)%nat;
      [destruct (Http.Write p (Io.dst st)) as [[d' nw] []]|];
      simpl in Hstep; try discriminate;
      destruct er; try discriminate; injection Hstep as <-; simpl in *; auto.
  - clear IH. unfold Io.copy_step in Hstep.
    destruct (Io.LimitedRead _ _) as [[p er] src'].
    pose proof (Write_status_cases p (Io.dst st)) as Hw.
    destruct (0 <? length p)%nat;
      [destruct (Http.Write p (Io.dst st)) as [[d' nw] []]|];
      simpl in Hstep; destruct er; try discriminate;
      injection Hstep as <-; simpl in *; auto.
Qed.

(** C10.  A stream request answered with a status below 400 and a declared
    length equal to the cap is not answered 413: the response is the one
    produced by the relay, whose status is 200 or still uncommitted; and
    when the upstream offers exactly [MaxSize] bytes and the client takes
    them, all of them are appended to the response body. *)
Theorem declared_length_at_cap_is_relayed
        (net : Upstream.Network) (cfg : Config) (r : Http.Request) (wd : World)
        (url : string) (resp : Upstream.Response) :
  answered net r wd url resp ->
  Upstream.StatusCode resp < 400 ->
  Upstream.ContentLength resp = MaxSize cfg ->
  w (handleStream net cfg r wd) =
    Io.res_dst (Io.Copy (butler url resp (w wd))
                        (Io.LimitReader (Upstream.Body resp) (MaxSize cfg))) /\
  (Http.status (w wd) <> 413 -> Http.status (w (handleStream net cfg r wd)) <> 413) /\
  (Http.room (w wd) = None ->
   Z.of_nat (length (Io.offered (Upstream.Body resp))) = MaxSize cfg ->
   Http.body (w (handleStream net cfg r wd)) =
     Http.body (w wd) ++ Io.offered (Upstream.Body resp) /\
   Z.of_nat (length (Io.offered (Upstream.Body resp))) = MaxSize cfg).
Proof.
  intros Hans Hcode Hlen.
  rewrite (handleStream_answered _ _ _ _ _ _ Hans).
  replace (400 <=? Upstream.StatusCode resp) with false by (symmetry; apply Z.leb_gt; lia).
  replace (MaxSize cfg <? Upstream.ContentLength resp) with false
    by (symmetry; apply Z.ltb_ge; lia).
  destruct (butler_rest url resp (w wd)) as (Bb & Br & Bs & _).
  split; [reflexivity|]. split.
  - intros Hs. unfold Io.Copy.
    destruct (copy_loop_status (Io.bufsize (Io.LimitReader (Upstream.Body resp) (MaxSize cfg)))
                {| Io.src := Io.LimitReader (Upstream.Body resp) (MaxSize cfg);
                   Io.dst := butler url resp (w wd); Io.written := 0 |}) as [H|H];
      rewrite H; simpl; [congruence | discriminate].
  - intros Hroom Hall. split; [|exact Hall].
    destruct (Copy_sends (butler url resp (w wd))
                         (Io.LimitReader (Upstream.Body resp) (MaxSize cfg)))
      as (sent & rest & Hb & Ha & _ & Hr & _).
    rewrite Br in Hr. rewrite (Hr Hroom), app_nil_r in Ha.
    rewrite Hb, Bb, <- Ha. unfold Io.allowance. simpl.
    rewrite firstn_all2 by lia. reflexivity.
Qed.

End AtTheCap.

(** Cap 8, declared length 8, 8 bytes offered in two chunks. *)
Lemma declared_length_at_cap_is_relayed_witness :
  let resp := Sample.response 200 8 ∅ [Sample.payload 3; Sample.payload 5] in
  let out := handleStream (Sample.answering resp) (Sample.cfg EmptyString 8)
                          (Sample.get "http://example.com/a.bin") (Sample.world 1 0) in
  Http.status (w out) <> 413 /\ Http.body (w out) = Sample.payload 8.
Proof.
  intros resp out.
  destruct (declared_length_at_cap_is_relayed
              (Sample.answering resp) (Sample.cfg EmptyString 8)
              (Sample.get "http://example.com/a.bin") (Sample.world 1 0)
              "http://example.com/a.bin" resp)
    as (_ & H2 & H3); [closed_example ..|].
  split; [apply H2; closed_example | apply H3; closed_example].
Defined.

(** ** Upstream failures *)

Section UpstreamFailures.

Context `{RL : RateLib}.

(** C6.  For a request that names a URL, on a fresh response: when the
    upstream answers with a status of 400 or more, [handleProbe] and
    [handleStream] both reply [http.Error] with status 502 and the message
    "Source returned error: <code>"; when the upstream cannot be reached they
    reply 502 with the message "Failed to reach source: <error>".  The status
    sent is 502 whatever the upstream's status was, and the two outcomes
    never carry the same message. *)
Theorem upstream_status_400_and_up_is_502
        (net : Upstream.Network) (cfg : Config) (r : Http.Request) (wd : World)
        (url : string) :
  Http.Get (Http.Query r) "url" = url ->
  url <> EmptyString ->
  Http.wroteHeader (w wd) = false ->
  ((Http.Method r = Http.MethodHead \/ Http.Method r = Http.MethodGet) ->
   Upstream.NewRequest_ok net Http.MethodHead url = true ->
   (forall resp, Upstream.Do net Http.MethodHead url = inr resp ->
                 400 <= Upstream.StatusCode resp ->
                 handleProbe net r wd =
                   reply ("Source returned error: " +:+ Str.of_Z (Upstream.StatusCode resp))
                         502 wd /\
                 Http.status (w (handleProbe net r wd)) = 502) /\
   (forall err, Upstream.Do net Http.MethodHead url = inl err ->
                handleProbe net r wd = reply ("Failed to reach source: " +:+ err) 502 wd /\
                Http.status (w (handleProbe net r wd)) = 502)) /\
  (Http.Method r = Http.MethodGet ->
   (chan_len (sem wd) < chan_cap (sem wd))%nat ->
   Upstream.NewRequest_ok net Http.MethodGet url = true ->
   (forall resp, Upstream.Do net Http.MethodGet url = inr resp ->
                 400 <= Upstream.StatusCode resp ->
                 w (handleStream net cfg r wd) =
                   Http.Error ("Source returned error: " +:+ Str.of_Z (Upstream.StatusCode resp))
                              502 (w wd) /\
                 Http.status (w (handleStream net cfg r wd)) = 502) /\
   (forall err, Upstream.Do net Http.MethodGet url = inl err ->
                w (handleStream net cfg r wd) =
                  Http.Error ("Failed to reach source: " +:+ err) 502 (w wd) /\
                Http.status (w (handleStream net cfg r wd)) = 502)) /\
  (forall code err,
     "Source returned error: " +:+ Str.of_Z code <> "Failed to reach source: " +:+ err).
Proof.
  intros Hurl Hne Hfresh. split; [|split].
  - intros Hm Hreq.
    assert (Hhead : handleProbe net r wd =
                    match Upstream.Do net Http.MethodHead url with
                    | inl err => reply ("Failed to reach source: " +:+ err) 502 wd
                    | inr resp =>
                        if 400 <=? Upstream.StatusCode resp then
                          reply ("Source returned error: "
                                 +:+ Str.of_Z (Upstream.StatusCode resp)) 502 wd
                        else handleProbe net r wd
                    end).
    { unfold handleProbe at 1.
      replace (negb (String.eqb (Http.Method r) Http.MethodHead)
               && negb (String.eqb (Http.Method r) Http.MethodGet)) with false
        by (destruct Hm as [-> | ->]; reflexivity).
      rewrite Hurl, (is_empty_false _ Hne), Hreq. simpl negb. cbv iota.
      destruct (Upstream.Do net Http.MethodHead url) as [err|resp] eqn:Hdo; [reflexivity|].
      destruct (400 <=? Upstream.StatusCode resp) eqn:Hc; [reflexivity|].
      unfold handleProbe.
      replace (negb (String.eqb (Http.Method r) Http.MethodHead)
               && negb (String.eqb (Http.Method r) Http.MethodGet)) with false
        by (destruct Hm as [-> | ->]; reflexivity).
      rewrite Hurl, (is_empty_false _ Hne), Hreq. simpl negb. cbv iota.
      now rewrite Hdo, Hc. }
    split.
    + intros resp Hdo Hcode. rewrite Hhead, Hdo.
      replace (400 <=? Upstream.StatusCode resp) with true by (symmetry; apply Z.leb_le; lia).
      split; [reflexivity|]. now apply Error_status.
    + intros err Hdo. rewrite Hhead, Hdo. split; [reflexivity|]. now apply Error_status.
  - intros Hm Hfree Hreq. split.
    + intros resp Hdo Hcode.
      rewrite (handleStream_answered net cfg r wd url resp) by (repeat split; assumption).
      replace (400 <=? Upstream.StatusCode resp) with true by (symmetry; apply Z.leb_le; lia).
      split; [reflexivity|]. now apply Error_status.
    + intros err Hdo.
      assert (E : w (handleStream net cfg r wd) =
                  Http.Error ("Failed to reach source: " +:+ err) 502 (w wd)).
      { unfold handleStream. rewrite Hm, String.eqb_refl. simpl negb. cbv iota.
        rewrite (try_send_free _ Hfree). simpl.
        unfold stream. rewrite Hurl, (is_empty_false _ Hne), Hreq. simpl negb. cbv iota.
        now rewrite Hdo. }
      rewrite E. split; [reflexivity|]. now apply Error_status.
  - intros code err. discriminate.
Qed.

(** The world left by the recording handler is the one left by
    [handleStream]. *)
Lemma handleStream_ops_world net cfg r wd :
  fst (handleStream_ops net cfg r wd) = handleStream net cfg r wd.
Proof.
  unfold handleStream_ops, slotted, handleStream.
  destruct (negb _); [reflexivity|].
  destruct (try_send (sem wd)); reflexivity.
Qed.


End UpstreamFailures.

(** An upstream that answers 404: the probe and the stream both say 502. *)
Lemma upstream_status_400_and_up_is_502_witness :
  let resp := Sample.response 404 9 ∅ [Sample.payload 9] in
  let net := Sample.answering resp in
  let r := Sample.get "http://example.com/missing" in
  Http.status (w (handleProbe net r (Sample.world 1 0))) = 502 /\
  Http.status (w (handleStream net (Sample.cfg EmptyString 1024) r (Sample.world 1 0))) = 502.
Proof.
  intros resp net r.
  destruct (upstream_status_400_and_up_is_502 net (Sample.cfg EmptyString 1024) r
              (Sample.world 1 0) "http://example.com/missing")
    as (Hp & Hs & _); [closed_example ..|].
  split.
  - destruct (Hp ltac:(right; reflexivity) ltac:(reflexivity)) as [H _].
    apply (H resp); closed_example.
  - destruct (Hs ltac:(reflexivity) ltac:(vm_compute; lia) ltac:(reflexivity)) as [H _].
    apply (H resp); closed_example.
Defined.


(** ** The header butler *)

Section Butler.

Context `{RL : RateLib}.

Lemma split_char_nonempty c s : Str.split_char c s <> [].
Proof.
  destruct s as [|a s]; simpl; [discriminate|].
  destruct (Ascii.eqb a c); [discriminate|].
  destruct (Str.split_char c s); discriminate.
Qed.

Lemma split_char_lacks c s : Net.lacks c s -> Str.split_char c s = [s].
Proof.
  unfold Net.lacks. induction s as [|a s IH]; [reflexivity|].
  rewrite has_cons. intros [Ha Hs]%orb_false_elim. simpl.
  now rewrite Ha, (IH Hs).
Qed.

Lemma split_char_app c a t :
  Str.split_char c (a +:+ String c t) = Str.split_char c a ++ Str.split_char c t.
Proof.
  induction a as [|x a IH].
  - simpl. now rewrite Ascii.eqb_refl.
  - change (String x a +:+ String c t) with (String x (a +:+ String c t)).
    simpl. rewrite IH. destruct (Ascii.eqb x c); [reflexivity|].
    pose proof (split_char_nonempty c a) as Hne.
    destruct (Str.split_char c a); [congruence | reflexivity].
Qed.

(** The piece after the last separator. *)
Lemma last_part_after_separator c dir name :
  Net.lacks c name -> Str.last_part (Str.split_char c (dir +:+ String c name)) = name.
Proof.
  intros H. rewrite split_char_app, (split_char_lacks _ _ H).
  unfold Str.last_part. apply last_last.
Qed.

Ltac butler_cases :=
  repeat match goal with
         | |- context [Str.is_empty ?x] => destruct (Str.is_empty x)
         | |- context [(?a <? ?b)%Z] => destruct (a <? b)%Z
         | |- context [(?a <? ?b)%nat] => destruct (a <? b)%nat
         end.

Ltac header_lookup :=
  simpl; unfold Http.Set_;
  repeat (rewrite lookup_insert_ne by discriminate);
  try rewrite lookup_insert_eq; reflexivity.

Lemma butler_content_length url resp w0 :
  Http.RespHeader (butler url resp w0) !! "Content-Length" =
  if 0 <? Upstream.ContentLength resp
  then Some [Str.of_Z (Upstream.ContentLength resp)]
  else Http.RespHeader w0 !! "Content-Length".
Proof.
  unfold butler.
  butler_cases; header_lookup.
Qed.

Lemma butler_content_type url resp w0 :
  Http.RespHeader (butler url resp w0) !! "Content-Type" =
  if Str.is_empty (Http.Get (Upstream.RHeader resp) "Content-Type")
  then Http.RespHeader w0 !! "Content-Type"
  else Some [Http.Get (Upstream.RHeader resp) "Content-Type"].
Proof.
  unfold butler.
  butler_cases; header_lookup.
Qed.

Lemma butler_content_disposition url resp w0 :
  Http.RespHeader (butler url resp w0) !! "Content-Disposition" =
  if Str.is_empty (Http.Get (Upstream.RHeader resp) "Content-Disposition") then
    if Str.is_empty (Str.last_part (Str.split_char "/" url))
    then Http.RespHeader w0 !! "Content-Disposition"
    else Some ["attachment; filename=" +:+ Str.dquote
               +:+ Str.last_part (Str.split_char "/" url) +:+ Str.dquote]
  else Some [Http.Get (Upstream.RHeader resp) "Content-Disposition"].
Proof.
  unfold butler.
  assert (Hparts : (0 <? length (Str.split_char "/" url))%nat = true).
  { pose proof (split_char_nonempty "/" url).
    destruct (Str.split_char "/" url); [congruence | reflexivity]. }
  rewrite Hparts.
  butler_cases; header_lookup.
Qed.

(** The headers of the response to an answered request that is relayed are
    those left by the butler. *)
Lemma handleStream_headers net cfg r wd url resp :
  answered net r wd url resp ->
  Upstream.StatusCode resp < 400 ->
  Upstream.ContentLength resp <= MaxSize cfg ->
  Http.RespHeader (w (handleStream net cfg r wd)) = Http.RespHeader (butler url resp (w wd)).
Proof.
  intros Hans Hcode Hlen.
  rewrite (handleStream_answered _ _ _ _ _ _ Hans).
  replace (400 <=? Upstream.StatusCode resp) with false by (symmetry; apply Z.leb_gt; lia).
  replace (MaxSize cfg <? Upstream.ContentLength resp) with false
    by (symmetry; apply Z.ltb_ge; lia).
  destruct (Copy_sends (butler url resp (w wd))
                       (Io.LimitReader (Upstream.Body resp) (MaxSize cfg)))
    as (sent & rest & _ & _ & Hh & _). exact Hh.
Qed.

Lemma Get_lookup (h : Header) key v : h !! key = Some [v] -> Http.Get h key = v.
Proof. intros H. unfold Http.Get. now rewrite H. Qed.

(** C7, as the code has it.  A stream request answered with a status below
    400 and a declared length within the cap: when the declared length is
    positive, the response carries it as [Content-Length], in decimal; when
    it is zero or absent, the handler sets no [Content-Length]; and a
    non-empty upstream [Content-Type] is the response's [Content-Type]. *)
Theorem positive_content_length_is_copied
        (net : Upstream.Network) (cfg : Config) (r : Http.Request) (wd : World)
        (url : string) (resp : Upstream.Response) :
  answered net r wd url resp ->
  Upstream.StatusCode resp < 400 ->
  Upstream.ContentLength resp <= MaxSize cfg ->
  let out := w (handleStream net cfg r wd) in
  (0 < Upstream.ContentLength resp ->
     Http.Get (Http.RespHeader out) "Content-Length" = Str.of_Z (Upstream.ContentLength resp)) /\
  (Upstream.ContentLength resp <= 0 ->
     Http.RespHeader out !! "Content-Length" = Http.RespHeader (w wd) !! "Content-Length") /\
  (Http.Get (Upstream.RHeader resp) "Content-Type" <> EmptyString ->
     Http.Get (Http.RespHeader out) "Content-Type" =
     Http.Get (Upstream.RHeader resp) "Content-Type").
Proof.
  intros Hans Hcode Hlen out. subst out.
  rewrite (handleStream_headers _ _ _ _ _ _ Hans Hcode Hlen).
  split; [|split].
  - intros Hpos. apply Get_lookup. rewrite butler_content_length.
    now replace (0 <? Upstream.ContentLength resp) with true by (symmetry; apply Z.ltb_lt; lia).
  - intros Hz. rewrite butler_content_length.
    now replace (0 <? Upstream.ContentLength resp) with false by (symmetry; apply Z.ltb_ge; lia).
  - intros Hct. apply Get_lookup. rewrite butler_content_type.
    now rewrite (is_empty_false _ Hct).
Qed.

(** C8, as the code has it.  A stream request answered with a status below
    400 and a declared length within the cap: a non-empty upstream
    [Content-Disposition] is copied; without one, the file name is the text
    after the last slash of the [url] parameter as it was given (the whole
    parameter if it has no slash), the header is
    [attachment; filename="<name>"], and when that text is empty the handler
    sets no [Content-Disposition]. *)
Theorem disposition_names_text_after_last_slash
        (net : Upstream.Network) (cfg : Config) (r : Http.Request) (wd : World)
        (url : string) (resp : Upstream.Response) :
  answered net r wd url resp ->
  Upstream.StatusCode resp < 400 ->
  Upstream.ContentLength resp <= MaxSize cfg ->
  let out := w (handleStream net cfg r wd) in
  let upstream := Http.Get (Upstream.RHeader resp) "Content-Disposition" in
  (upstream <> EmptyString ->
     Http.Get (Http.RespHeader out) "Content-Disposition" = upstream) /\
  (upstream = EmptyString ->
     forall dir name,
       url = dir +:+ String "/" name -> Net.lacks "/" name ->
       (name <> EmptyString ->
          Http.Get (Http.RespHeader out) "Content-Disposition" =
          "attachment; filename=" +:+ Str.dquote +:+ name +:+ Str.dquote) /\
       (name = EmptyString ->
          Http.RespHeader out !! "Content-Disposition" =
          Http.RespHeader (w wd) !! "Content-Disposition")) /\
  (upstream = EmptyString ->
     Net.lacks "/" url ->
     Http.Get (Http.RespHeader out) "Content-Disposition" =
     "attachment; filename=" +:+ Str.dquote +:+ url +:+ Str.dquote).
Proof.
  intros Hans Hcode Hlen out upstream. subst out upstream.
  rewrite (handleStream_headers _ _ _ _ _ _ Hans Hcode Hlen).
  split; [|split].
  - intros Hcd. apply Get_lookup. rewrite butler_content_disposition.
    now rewrite (is_empty_false _ Hcd).
  - intros Hcd dir name -> Hname. split.
    + intros Hne. apply Get_lookup. rewrite butler_content_disposition, Hcd.
      simpl Str.is_empty. cbv iota.
      rewrite (last_part_after_separator _ _ _ Hname). now rewrite (is_empty_false _ Hne).
    + intros ->. rewrite butler_content_disposition, Hcd.
      simpl Str.is_empty. cbv iota.
      now rewrite (last_part_after_separator _ _ _ Hname).
  - intros Hcd Hno. apply Get_lookup. rewrite butler_content_disposition, Hcd.
    simpl Str.is_empty. cbv iota.
    rewrite (split_char_lacks _ _ Hno). change (Str.last_part [url]) with url.
    destruct Hans as (_ & _ & _ & Hne & _).
    now rewrite (is_empty_false _ Hne).
Qed.

End Butler.

(** C7 as stated fails: a declared length of zero is a known length, and the
    handler leaves the response without a [Content-Length]. *)
Lemma zero_content_length_is_not_copied :
  let resp := Sample.response 200 0 ∅ [] in
  let out := w (handleStream (Sample.answering resp) (Sample.cfg EmptyString 1024)
                             (Sample.get "http://example.com/empty.txt") (Sample.world 1 0)) in
  Upstream.ContentLength resp = 0 /\
  Http.RespHeader out !! "Content-Length" = None /\
  Http.Get (Http.RespHeader out) "Content-Length" <> Str.of_Z (Upstream.ContentLength resp).
Proof.
  vm_compute. repeat split; try reflexivity. discriminate.
Qed.

(** A declared length of 500 with a content type. *)
Lemma positive_content_length_is_copied_witness :
  let resp := Sample.response 200 500 (<["Content-Type" := ["text/plain"]]> ∅)
                              [Sample.payload 500] in
  let out := w (handleStream (Sample.answering resp) (Sample.cfg EmptyString 1024)
                             (Sample.get "http://example.com/a.txt") (Sample.world 1 0)) in
  Http.Get (Http.RespHeader out) "Content-Length" = "500" /\
  Http.Get (Http.RespHeader out) "Content-Type" = "text/plain".
Proof.
  intros resp out.
  destruct (positive_content_length_is_copied
              (Sample.answering resp) (Sample.cfg EmptyString 1024)
              (Sample.get "http://example.com/a.txt") (Sample.world 1 0)
              "http://example.com/a.txt" resp)
    as (H1 & _ & H3); [closed_example ..|].
  split; [apply H1; closed_example | apply H3; closed_example].
Defined.

(** C8 as stated fails: the file name is cut from the [url] parameter as
    text, not from the URL's path.  For a URL with a query string the last
    path segment is [report.pdf], and the header names
    [report.pdf?token=abc]. *)
Lemma disposition_keeps_query_string :
  let url := "http://example.com/files/report.pdf?token=abc"%string in
  let resp := Sample.response 200 3 ∅ [Sample.payload 3] in
  let out := w (handleStream (Sample.answering resp) (Sample.cfg EmptyString 1024)
                             (Sample.get url) (Sample.world 1 0)) in
  Http.Get (Upstream.RHeader resp) "Content-Disposition" = EmptyString /\
  SpecUrl.last_path_segment url = "report.pdf" /\
  Http.Get (Http.RespHeader out) "Content-Disposition" =
    "attachment; filename=" +:+ Str.dquote +:+ "report.pdf?token=abc" +:+ Str.dquote /\
  Http.Get (Http.RespHeader out) "Content-Disposition" <>
    "attachment; filename=" +:+ Str.dquote +:+ SpecUrl.last_path_segment url +:+ Str.dquote.
Proof.
  vm_compute. repeat split; try reflexivity. discriminate.
Qed.

(** No upstream disposition, a URL ending in [/files/report.pdf]. *)
Lemma disposition_names_text_after_last_slash_witness :
  let resp := Sample.response 200 3 ∅ [Sample.payload 3] in
  let out := w (handleStream (Sample.answering resp) (Sample.cfg EmptyString 1024)
                             (Sample.get "http://example.com/files/report.pdf")
                             (Sample.world 1 0)) in
  Http.Get (Http.RespHeader out) "Content-Disposition" =
    "attachment; filename=" +:+ Str.dquote +:+ "report.pdf" +:+ Str.dquote.
Proof.
  intros resp out.
  destruct (disposition_names_text_after_last_slash
              (Sample.answering resp) (Sample.cfg EmptyString 1024)
              (Sample.get "http://example.com/files/report.pdf") (Sample.world 1 0)
              "http://example.com/files/report.pdf" resp)
    as (_ & H2 & _); [closed_example ..|].
  destruct (H2 ltac:(reflexivity) "http://example.com/files" "report.pdf"
               ltac:(reflexivity) ltac:(reflexivity)) as [H _].
  apply H. discriminate.
Defined.

(** ** Decimal numbers: printing and parsing *)

Section Decimal.

Import Strconv Chars.

Lemma digit_is_digit m : (m < 10)%nat -> is_digit (Str.digit m) = true.
Proof.
  intros H. do 10 (destruct m as [|m]; [reflexivity|]). lia.
Qed.

Lemma digit_val_digit m : (m < 10)%nat -> digit_val (Str.digit m) = Some (Z.of_nat m).
Proof.
  intros H. do 10 (destruct m as [|m]; [reflexivity|]). lia.
Qed.

Lemma digit_val_is_digit c : is_digit c = true -> exists d, digit_val c = Some d /\ 0 <= d <= 9.
Proof.
  unfold is_digit, digit_val. intros H. rewrite H.
  apply andb_true_iff in H as [H1 H2].
  apply N.leb_le in H1, H2. eexists. split; [reflexivity|]. lia.
Qed.

Lemma digits_fuel_S f n acc :
  Str.digits_fuel (S f) n acc =
  match (n / 10)%nat with
  | O => String (Str.digit (n mod 10)) acc
  | S q => Str.digits_fuel f (S q) (String (Str.digit (n mod 10)) acc)
  end.
Proof. cbn [Str.digits_fuel]. destruct (n / 10)%nat; reflexivity. Qed.

(** The digits printed for [n], read back by the digit loop, continue the
    accumulator with [n]. *)
Lemma digits_fuel_val fuel n acc :
  (n < fuel)%nat ->
  exists k, 0 <= k /\
    forall a, digits_val (Str.digits_fuel fuel n acc) a
              = digits_val acc (a * 10 ^ k + Z.of_nat n).
Proof.
  revert n acc. induction fuel as [|fuel IH]; intros n acc Hn; [lia|].
  rewrite digits_fuel_S. pose proof (Nat.div_mod_eq n 10) as Hdm.
  pose proof (Nat.mod_upper_bound n 10 ltac:(lia)) as Hm.
  destruct (n / 10)%nat as [|q] eqn:Hq.
  - exists 1. split; [lia|]. intros a. cbn [digits_val].
    rewrite (digit_val_digit _ Hm). f_equal. lia.
  - destruct (IH (S q) (String (Str.digit (n mod 10)) acc) ltac:(lia)) as (k & Hk & IHk).
    exists (k + 1). split; [lia|]. intros a. rewrite IHk. cbn [digits_val].
    rewrite (digit_val_digit _ Hm). f_equal.
    rewrite Z.pow_add_r by lia. lia.
Qed.

Lemma digits_fuel_all fuel n acc :
  all is_digit acc = true -> all is_digit (Str.digits_fuel fuel n acc) = true.
Proof.
  revert n acc. induction fuel as [|fuel IH]; intros n acc Hacc; [exact Hacc|].
  rewrite digits_fuel_S. pose proof (Nat.mod_upper_bound n 10 ltac:(lia)) as Hm.
  assert (Hacc' : all is_digit (String (Str.digit (n mod 10)) acc) = true).
  { cbn [all]. now rewrite (digit_is_digit _ Hm), Hacc. }
  destruct (n / 10)%nat; [exact Hacc'|]. now apply IH.
Qed.

Lemma digits_fuel_nonempty fuel n :
  Str.is_empty (Str.digits_fuel (S fuel) n EmptyString) = false.
Proof.
  assert (H : forall f m acc, Str.is_empty acc = false ->
                              Str.is_empty (Str.digits_fuel f m acc) = false).
  { induction f as [|f IH]; intros m acc Hacc; [exact Hacc|].
    rewrite digits_fuel_S. destruct (m / 10)%nat; [reflexivity|]. now apply IH. }
  rewrite digits_fuel_S. destruct (n / 10)%nat; [reflexivity|]. now apply H.
Qed.

Lemma all_digits_first c s :
  all is_digit (String c s) = true ->
  Ascii.eqb c "+" = false /\ Ascii.eqb c "-" = false.
Proof.
  simpl. intros [Hc _]%andb_true_iff. unfold is_digit in Hc.
  apply andb_true_iff in Hc as [H1 H2]. apply N.leb_le in H1, H2.
  split; apply Ascii.eqb_neq; intros ->; vm_compute in H1, H2; congruence.
Qed.

(** Printing an integer with [%d] and parsing it back with [ParseInt] gives
    the integer when it fits [int64], and an error otherwise. *)
Lemma ParseInt_of_Z z :
  ParseInt (Str.of_Z z) = if (- 2 ^ 63 <=? z) && (z <? 2 ^ 63) then Some z else None.
Proof.
  unfold Str.of_Z.
  set (ds := Str.digits_fuel (S (Z.abs_nat z)) (Z.abs_nat z) EmptyString).
  assert (Hne : Str.is_empty ds = false) by apply digits_fuel_nonempty.
  assert (Hall : all is_digit ds = true) by (apply digits_fuel_all; reflexivity).
  assert (Hval : digits_val ds 0 = Some (Z.abs z)).
  { destruct (digits_fuel_val (S (Z.abs_nat z)) (Z.abs_nat z) EmptyString ltac:(lia))
      as (k & _ & Hk).
    subst ds. rewrite Hk. simpl. f_equal. lia. }
  assert (Hu : ParseUint ds = Some (Z.abs z)).
  { unfold ParseUint. now rewrite Hne. }
  destruct (Z.ltb_spec z 0) as [Hneg|Hpos].
  - unfold ParseInt.
    change (Ascii.eqb "-" "-") with true. change (Ascii.eqb "-" "+") with false.
    cbv beta iota zeta. cbn [orb negb andb]. rewrite Hu.
    destruct (Z.ltb_spec (2 ^ 63) (Z.abs z)), (Z.leb_spec (- 2 ^ 63) z),
      (Z.ltb_spec z (2 ^ 63)); simpl; try lia; f_equal; lia.
  - destruct ds as [|c rest] eqn:Eds; [discriminate|].
    destruct (all_digits_first _ _ Hall) as [Hp Hm].
    unfold ParseInt. rewrite Hp, Hm. cbv beta iota zeta. cbn [orb negb andb]. rewrite Hu.
    destruct (Z.leb_spec (2 ^ 63) (Z.abs z)), (Z.leb_spec (- 2 ^ 63) z),
      (Z.ltb_spec z (2 ^ 63)); simpl; try lia; f_equal; lia.
Qed.

End Decimal.

(** ** Bytes of strings, suffixes, trimming *)

Section StringFacts.

Import GoStrings Chars.

Lemma chars_app a b :
  list_ascii_of_string (a +:+ b) = list_ascii_of_string a ++ list_ascii_of_string b.
Proof.
  induction a as [|x a IH]; [reflexivity|].
  change (String x a +:+ b) with (String x (a +:+ b)). simpl. now rewrite IH.
Qed.

Lemma string_split_at s k :
  (k <= String.length s)%nat ->
  s = String.substring 0 k s +:+ String.substring k (String.length s - k) s.
Proof.
  revert k. induction s as [|c s IH]; intros [|k] Hk; simpl in *; try lia.
  - reflexivity.
  - now rewrite substring_all.
  - change (String c (String.substring 0 k s) +:+ String.substring k (String.length s - k) s)
      with (String c (String.substring 0 k s +:+ String.substring k (String.length s - k) s)).
    f_equal. apply IH. lia.
Qed.

(** A string has a suffix exactly when it is something followed by it. *)
Lemma HasSuffix_decompose s suffix :
  HasSuffix s suffix = true -> exists a, s = a +:+ suffix.
Proof.
  unfold HasSuffix. intros [Hlen Heq]%andb_true_iff.
  apply Nat.leb_le in Hlen. apply String.eqb_eq in Heq.
  exists (String.substring 0 (String.length s - String.length suffix) s).
  pose proof (string_split_at s (String.length s - String.length suffix) ltac:(lia)) as Hs.
  unfold Net.slice_from in Heq. rewrite Heq in Hs. exact Hs.
Qed.

Lemma HasSuffix_app a suffix : HasSuffix (a +:+ suffix) suffix = true.
Proof.
  unfold HasSuffix. rewrite str_length_app.
  replace (String.length a + String.length suffix - String.length suffix)%nat
    with (String.length a) by lia.
  rewrite slice_from_app, String.eqb_refl.
  apply andb_true_iff. split; [apply Nat.leb_le; lia | reflexivity].
Qed.

Lemma TrimSuffix_app a suffix : TrimSuffix (a +:+ suffix) suffix = a.
Proof.
  unfold TrimSuffix. rewrite HasSuffix_app. unfold Net.slice.
  rewrite str_length_app, Nat.sub_0_r.
  replace (String.length a + String.length suffix - String.length suffix)%nat
    with (String.length a) by lia.
  apply substring_prefix.
Qed.

Lemma HasSuffix_refuted s suffix :
  (forall a, s <> a +:+ suffix) -> HasSuffix s suffix = false.
Proof.
  intros H. destruct (HasSuffix s suffix) eqn:E; [|reflexivity].
  destruct (HasSuffix_decompose _ _ E) as [a Ha]. now destruct (H a).
Qed.

Lemma ToUpper_app a b : ToUpper (a +:+ b) = ToUpper a +:+ ToUpper b.
Proof.
  induction a as [|x a IH]; [reflexivity|].
  change (String x a +:+ b) with (String x (a +:+ b)). simpl. now rewrite IH.
Qed.

Lemma all_app p a b : all p (a +:+ b) = all p a && all p b.
Proof.
  induction a as [|x a IH]; [reflexivity|].
  change (String x a +:+ b) with (String x (a +:+ b)). simpl.
  now rewrite IH, andb_assoc.
Qed.

Lemma all_weaken (p q : ascii -> bool) s :
  (forall c, p c = true -> q c = true) -> all p s = true -> all q s = true.
Proof.
  intros Hpq. induction s as [|c s IH]; [reflexivity|]. simpl.
  intros [Hc Hs]%andb_true_iff. now rewrite (Hpq _ Hc), (IH Hs).
Qed.

(** A string without lower-case letters is its own upper case. *)
Lemma ToUpper_fixed s : all (fun c => negb (is_lower c)) s = true -> ToUpper s = s.
Proof.
  induction s as [|c s IH]; [reflexivity|]. simpl.
  intros [Hc Hs]%andb_true_iff. unfold upper.
  apply negb_true_iff in Hc. now rewrite Hc, (IH Hs).
Qed.

(** A string without white space is left alone by [TrimSpace]. *)
Lemma TrimSpace_fixed s : all (fun c => negb (is_space c)) s = true -> TrimSpace s = s.
Proof.
  intros H. unfold TrimSpace.
  assert (Hl : trim_left s = s).
  { destruct s as [|c s]; [reflexivity|]. simpl in *.
    apply andb_true_iff in H as [Hc _]. apply negb_true_iff in Hc. now rewrite Hc. }
  rewrite Hl. induction s as [|c s IH]; [reflexivity|].
  simpl in *. apply andb_true_iff in H as [Hc Hs]. apply negb_true_iff in Hc.
  rewrite IH; [|exact Hs|].
  - destruct s; [now rewrite Hc | reflexivity].
  - destruct s as [|c' s]; [reflexivity|]. simpl in *.
    apply andb_true_iff in Hs as [Hc' _]. apply negb_true_iff in Hc'. now rewrite Hc'.
Qed.

(** A string of white space is trimmed to nothing. *)
Lemma TrimSpace_blank s : all is_space s = true -> TrimSpace s = EmptyString.
Proof.
  unfold TrimSpace. induction s as [|c s IH]; [reflexivity|]. simpl.
  intros [Hc Hs]%andb_true_iff. rewrite Hc. now apply IH.
Qed.

Lemma last_is_decompose p s :
  last_is p s = true -> exists pre c, s = pre +:+ String c EmptyString /\ p c = true.
Proof.
  induction s as [|c s IH]; [discriminate|].
  destruct s as [|c' s].
  - intros H. exists EmptyString, c. auto.
  - intros H. destruct (IH H) as (pre & d & E & Hd).
    exists (String c pre), d. split; [|exact Hd].
    change (String c pre +:+ String d EmptyString) with (String c (pre +:+ String d EmptyString)).
    now rewrite <- E.
Qed.

End StringFacts.

(** ** The configuration parsers *)

Section Parsers.

Import GoStrings Strconv Chars.

Lemma all_last_is p s : all p s = true -> Str.is_empty s = false -> last_is p s = true.
Proof.
  induction s as [|c s IH]; [discriminate|]. simpl.
  intros [Hc Hs]%andb_true_iff _. destruct s as [|c' s]; [exact Hc|].
  now apply IH.
Qed.

(** What [%d] prints: digits after an optional minus sign, ending in a digit. *)
Lemma of_Z_shape z :
  all (fun c => is_digit c || Ascii.eqb c "-") (Str.of_Z z) = true /\
  last_is is_digit (Str.of_Z z) = true /\
  Str.is_empty (Str.of_Z z) = false.
Proof.
  unfold Str.of_Z.
  set (ds := Str.digits_fuel (S (Z.abs_nat z)) (Z.abs_nat z) EmptyString).
  assert (Hne : Str.is_empty ds = false) by apply digits_fuel_nonempty.
  assert (Hall : all is_digit ds = true) by (apply digits_fuel_all; reflexivity).
  assert (Hnum : all (fun c => is_digit c || Ascii.eqb c "-") ds = true).
  { apply (all_weaken is_digit); [|exact Hall]. intros c Hc. now rewrite Hc. }
  pose proof (all_last_is _ _ Hall Hne) as Hlast.
  destruct (z <? 0); [|auto].
  split; [|split; [|reflexivity]].
  - simpl. exact Hnum.
  - destruct ds; [discriminate|exact Hlast].
Qed.

Lemma digit_or_minus_plain c :
  is_digit c || Ascii.eqb c "-" = true ->
  negb (is_lower c) = true /\ negb (is_space c) = true.
Proof.
  intros [H|H]%orb_true_iff.
  - unfold is_digit in H. apply andb_true_iff in H as [H1 H2]. apply N.leb_le in H1, H2.
    unfold is_lower, is_space. split; apply negb_true_iff.
    + apply andb_false_iff. left. apply N.leb_gt. lia.
    + apply orb_false_iff. split; [apply andb_false_iff; right; apply N.leb_gt; lia|].
      apply N.eqb_neq. lia.
  - apply Ascii.eqb_eq in H. subst c. split; reflexivity.
Qed.

Lemma of_Z_plain z :
  ToUpper (Str.of_Z z) = Str.of_Z z /\
  all (fun c => negb (is_space c)) (Str.of_Z z) = true.
Proof.
  destruct (of_Z_shape z) as (Hnum & _ & _). split.
  - apply ToUpper_fixed. apply (all_weaken _ _ _ (fun c H => proj1 (digit_or_minus_plain c H)) Hnum).
  - apply (all_weaken _ _ _ (fun c H => proj2 (digit_or_minus_plain c H)) Hnum).
Qed.

(** Refutes [num ++ unit = a ++ suffix] for closed [unit] and [suffix] by
    comparing the last characters. *)
Ltac refute_suffix Hd :=
  let a := fresh "a" in
  let E := fresh "E" in
  intros a E;
  apply (f_equal list_ascii_of_string) in E;
  rewrite !chars_app in E; simpl in E;
  apply (f_equal (@rev ascii)) in E;
  rewrite ?rev_app_distr in E; simpl in E;
  rewrite ?rev_app_distr in E; simpl in E;
  injection E; intros; subst; try discriminate;
  vm_compute in Hd; discriminate.

(** [ParseSize] on a decimal number followed by a unit, in any letter case:
    [GB], [MB] and [KB] multiply by 2^30, 2^20 and 2^10, [B] and no unit by
    1; the product wraps around as [int64] does; a number outside [int64]
    gives the default of 1 GiB.  Negative numbers are accepted. *)
Theorem ParseSize_number_with_unit (z : Z) (u U : string) (mult : Z) :
  In (U, mult) [("GB"%string, 1024 * 1024 * 1024); ("MB"%string, 1024 * 1024);
                ("KB"%string, 1024); ("B"%string, 1); (EmptyString, 1)] ->
  ToUpper u = U ->
  ParseSize (Str.of_Z z +:+ u) =
  if (- 2 ^ 63 <=? z) && (z <? 2 ^ 63) then wrap64 (z * mult) else GiB.
Proof.
  intros Hin Hu.
  destruct (of_Z_shape z) as (_ & Hlast & Hne).
  destruct (of_Z_plain z) as (Hup & Hsp).
  destruct (last_is_decompose _ _ Hlast) as (pre & d & Enum & Hd).
  assert (Hparse : Strconv.ParseInt (TrimSpace (Str.of_Z z)) =
                   if (- 2 ^ 63 <=? z) && (z <? 2 ^ 63) then Some z else None).
  { rewrite (TrimSpace_fixed _ Hsp). apply ParseInt_of_Z. }
  unfold ParseSize. rewrite ToUpper_app, Hup, Hu.
  assert (Htrim : TrimSpace (Str.of_Z z +:+ U) = Str.of_Z z +:+ U).
  { apply TrimSpace_fixed. rewrite all_app, Hsp.
    simpl in Hin. repeat destruct Hin as [[= <- <-]|Hin]; try reflexivity. destruct Hin. }
  rewrite Htrim.
  assert (Hnonempty : Str.is_empty (Str.of_Z z +:+ U) = false).
  { destruct (Str.of_Z z); [discriminate|reflexivity]. }
  rewrite Hnonempty.
  simpl in Hin. destruct Hin as [[= <- <-]|[[= <- <-]|[[= <- <-]|[[= <- <-]|[[= <- <-]|[]]]]]].
  - rewrite HasSuffix_app, TrimSuffix_app, Hparse.
    destruct ((- 2 ^ 63 <=? z) && (z <? 2 ^ 63)); reflexivity.
  - rewrite (HasSuffix_refuted (Str.of_Z z +:+ "MB") "GB")
      by (rewrite Enum; refute_suffix Hd).
    rewrite HasSuffix_app, TrimSuffix_app, Hparse.
    destruct ((- 2 ^ 63 <=? z) && (z <? 2 ^ 63)); reflexivity.
  - rewrite (HasSuffix_refuted (Str.of_Z z +:+ "KB") "GB")
      by (rewrite Enum; refute_suffix Hd).
    rewrite (HasSuffix_refuted (Str.of_Z z +:+ "KB") "MB")
      by (rewrite Enum; refute_suffix Hd).
    rewrite HasSuffix_app, TrimSuffix_app, Hparse.
    destruct ((- 2 ^ 63 <=? z) && (z <? 2 ^ 63)); reflexivity.
  - rewrite (HasSuffix_refuted (Str.of_Z z +:+ "B") "GB")
      by (rewrite Enum; refute_suffix Hd).
    rewrite (HasSuffix_refuted (Str.of_Z z +:+ "B") "MB")
      by (rewrite Enum; refute_suffix Hd).
    rewrite (HasSuffix_refuted (Str.of_Z z +:+ "B") "KB")
      by (rewrite Enum; refute_suffix Hd).
    rewrite HasSuffix_app, TrimSuffix_app, Hparse.
    destruct ((- 2 ^ 63 <=? z) && (z <? 2 ^ 63)); reflexivity.
  - rewrite (HasSuffix_refuted (Str.of_Z z +:+ EmptyString) "GB")
      by (rewrite Enum; refute_suffix Hd).
    rewrite (HasSuffix_refuted (Str.of_Z z +:+ EmptyString) "MB")
      by (rewrite Enum; refute_suffix Hd).
    rewrite (HasSuffix_refuted (Str.of_Z z +:+ EmptyString) "KB")
      by (rewrite Enum; refute_suffix Hd).
    rewrite (HasSuffix_refuted (Str.of_Z z +:+ EmptyString) "B")
      by (rewrite Enum; refute_suffix Hd).
    rewrite Htrim.
    assert (Hnil : Str.of_Z z +:+ EmptyString = Str.of_Z z).
    { clear. induction (Str.of_Z z) as [|c s IH]; [reflexivity|].
      change (String c s +:+ EmptyString) with (String c (s +:+ EmptyString)). now rewrite IH. }
    rewrite Hnil, <- (TrimSpace_fixed _ Hsp) at 1. rewrite Hparse.
    destruct ((- 2 ^ 63 <=? z) && (z <? 2 ^ 63)); reflexivity.
Qed.

(** When the product fits [int64], it is the result. *)
Lemma wrap64_small z : - 2 ^ 63 <= z < 2 ^ 63 -> wrap64 z = z.
Proof. intros H. unfold wrap64. rewrite Z.mod_small; lia. Qed.

Lemma upper_space c : is_space c = true -> upper c = c.
Proof.
  unfold is_space, upper, is_lower. intros H.
  replace ((97 <=? N_of_ascii c) && (N_of_ascii c <=? 122))%N with false; [reflexivity|].
  symmetry. apply andb_false_iff. left. apply N.leb_gt.
  apply orb_true_iff in H as [[_ H]%andb_true_iff | H].
  - apply N.leb_le in H. lia.
  - apply N.eqb_eq in H. lia.
Qed.

(** An empty or blank size gives the default of 1 GiB. *)
Theorem ParseSize_blank (s : string) :
  all is_space s = true -> ParseSize s = GiB.
Proof.
  intros H. unfold ParseSize.
  assert (Hup : ToUpper s = s).
  { induction s as [|c s IH]; [reflexivity|]. simpl in *.
    apply andb_true_iff in H as [Hc Hs]. now rewrite (upper_space _ Hc), (IH Hs). }
  now rewrite Hup, (TrimSpace_blank _ H).
Qed.

Lemma all_digits_lack_minus s : all is_digit s = true -> Net.lacks "-" s.
Proof.
  unfold Net.lacks. induction s as [|c s IH]; [reflexivity|]. simpl.
  intros [Hc Hs]%andb_true_iff. rewrite has_cons, (IH Hs), orb_false_r.
  unfold is_digit in Hc. apply andb_true_iff in Hc as [H1 H2]. apply N.leb_le in H1, H2.
  apply Ascii.eqb_neq. intros ->. vm_compute in H1. congruence.
Qed.

Lemma of_Z_nonneg_digits z : 0 <= z -> all is_digit (Str.of_Z z) = true.
Proof.
  intros Hz. unfold Str.of_Z.
  replace (z <? 0) with false by (symmetry; apply Z.ltb_ge; lia).
  apply digits_fuel_all. reflexivity.
Qed.

(** The conversion of an integer to [float64] is exact up to 2^53 in
    magnitude. *)
Lemma of_int64_exact z : Z.abs z <= 2 ^ 53 -> Float64.of_int64 z = z.
Proof.
  intros Hz. unfold Float64.of_int64.
  destruct (Z.ltb_spec (Z.abs z) (2 ^ 53)) as [|Hge]; [reflexivity|].
  assert (Hcases : z = 2 ^ 53 \/ z = - 2 ^ 53) by lia.
  destruct Hcases as [-> | ->]; vm_compute; reflexivity.
Qed.

(** The conversion of an [int] that is not negative is not negative, and is
    at most 2^63. *)
Lemma of_int64_bounds z : 0 <= z < 2 ^ 63 -> 0 <= Float64.of_int64 z <= 2 ^ 63.
Proof.
  intros Hz. unfold Float64.of_int64.
  rewrite (Z.abs_eq z) by lia.
  destruct (Z.ltb_spec z (2 ^ 53)) as [|Hge]; [lia|].
  assert (Hpos : 0 < z) by lia.
  destruct (Z.log2_spec z Hpos) as [Hlo Hhi].
  set (L := Z.log2 z) in *.
  assert (HL53 : 53 <= L).
  { destruct (Z.le_gt_cases 53 L) as [|Hlt]; [assumption|].
    assert (2 ^ Z.succ L <= 2 ^ 53) by (apply Z.pow_le_mono_r; lia). lia. }
  assert (HL62 : L <= 62).
  { destruct (Z.le_gt_cases L 62) as [|Hgt]; [assumption|].
    assert (2 ^ 63 <= 2 ^ L) by (apply Z.pow_le_mono_r; lia). lia. }
  set (e := L - 52).
  assert (He : 0 < 2 ^ e) by (apply Z.pow_pos_nonneg; lia).
  assert (Hsplit : 2 ^ Z.succ L = 2 ^ 53 * 2 ^ e).
  { rewrite <- Z.pow_add_r by lia. f_equal. lia. }
  assert (Hq : 0 <= z / 2 ^ e < 2 ^ 53).
  { split; [apply Z.div_pos; lia|].
    apply Z.div_lt_upper_bound; [exact He|]. lia. }
  set (q := z / 2 ^ e) in *.
  match goal with |- context [if ?c then q + 1 else q] =>
    set (q' := if c then q + 1 else q) end.
  assert (Hq' : 0 <= q' <= 2 ^ 53) by (subst q'; destruct (_ || _); lia).
  assert (Htop : 2 ^ 53 * 2 ^ e <= 2 ^ 63).
  { rewrite <- Hsplit. apply Z.pow_le_mono_r; lia. }
  rewrite (Z.sgn_pos z Hpos).
  split; [nia|].
  assert (q' * 2 ^ e <= 2 ^ 53 * 2 ^ e) by (apply Z.mul_le_mono_nonneg_r; lia).
  lia.
Qed.

(** [ParseRateLimit] reads back a rate and a burst printed as [rate-burst]:
    the burst as printed, the rate as the [float64] nearest to the one
    printed, which is the rate itself up to 2^53.  Above that the rate is
    rounded: 2^53 + 1 reads back as 2^53. *)
Theorem ParseRateLimit_round_trip (r b : Z) :
  0 <= r < 2 ^ 63 -> 0 <= b < 2 ^ 63 ->
  ParseRateLimit (Str.of_Z r +:+ String "-" (Str.of_Z b)) = (Float64.of_int64 r, b) /\
  (r <= 2 ^ 53 -> ParseRateLimit (Str.of_Z r +:+ String "-" (Str.of_Z b)) = (r, b)) /\
  ParseRateLimit "9007199254740993-5" = (9007199254740992, 5).
Proof.
  intros Hr Hb.
  assert (E : ParseRateLimit (Str.of_Z r +:+ String "-" (Str.of_Z b))
              = (Float64.of_int64 r, b)).
  { unfold ParseRateLimit.
    destruct (of_Z_plain r) as (_ & Hsr). destruct (of_Z_plain b) as (_ & Hsb).
    rewrite TrimSpace_fixed.
    2:{ rewrite all_app, Hsr. simpl. exact Hsb. }
    rewrite split_char_app.
    rewrite (split_char_lacks _ _ (all_digits_lack_minus _ (of_Z_nonneg_digits r (proj1 Hr)))).
    rewrite (split_char_lacks _ _ (all_digits_lack_minus _ (of_Z_nonneg_digits b (proj1 Hb)))).
    simpl app. unfold Atoi. rewrite !ParseInt_of_Z.
    replace ((- 2 ^ 63 <=? r) && (r <? 2 ^ 63)) with true
      by (symmetry; apply andb_true_iff; split; [apply Z.leb_le | apply Z.ltb_lt]; lia).
    replace ((- 2 ^ 63 <=? b) && (b <? 2 ^ 63)) with true
      by (symmetry; apply andb_true_iff; split; [apply Z.leb_le | apply Z.ltb_lt]; lia).
    reflexivity. }
  split; [exact E|]. split; [|vm_compute; reflexivity].
  intros Hsmall. rewrite E, of_int64_exact; [reflexivity|].
  rewrite Z.abs_eq; lia.
Qed.

Lemma split_char_pieces c s : Forall (fun p => Net.has c p = false) (Str.split_char c s).
Proof.
  induction s as [|a s IH]; [repeat constructor|]. simpl.
  destruct (Ascii.eqb a c) eqn:Ea; [constructor; [reflexivity | exact IH]|].
  destruct (Str.split_char c s) as [|p ps]; [repeat constructor; now rewrite has_cons, Ea|].
  inversion IH as [|? ? Hp Hps]; subst. constructor; [|exact Hps].
  now rewrite has_cons, Ea, Hp.
Qed.

Lemma digits_val_lower s : forall acc v, 0 <= acc -> digits_val s acc = Some v -> 0 <= v.
Proof.
  induction s as [|c s IH]; intros acc v Hacc; simpl.
  - intros [= <-]. exact Hacc.
  - unfold digit_val at 1.
    destruct ((48 <=? N_of_ascii c) && (N_of_ascii c <=? 57))%N eqn:Hd; [|discriminate].
    apply andb_true_iff in Hd as [H1 H2]. apply N.leb_le in H1, H2.
    apply IH. lia.
Qed.

(** A piece without a minus sign parses to a number from 0 to 2^63 - 1. *)
Lemma Atoi_unsigned p v :
  Net.has "-" p = false -> Atoi p = Some v -> 0 <= v < 2 ^ 63.
Proof.
  unfold Atoi, ParseInt. destruct p as [|c rest]; [discriminate|].
  rewrite has_cons. intros [Hc _]%orb_false_elim. rewrite Hc.
  destruct (ParseUint _) as [un|] eqn:Hu; [|discriminate].
  simpl negb. simpl andb. destruct (Z.leb_spec (2 ^ 63) un); [discriminate|].
  intros [= <-]. split; [|lia].
  unfold ParseUint in Hu. destruct (Str.is_empty _); [discriminate|].
  eapply digits_val_lower; [|exact Hu]. lia.
Qed.

(** Whatever the text, [ParseRateLimit] returns a rate and a burst that are
    not negative: the separator is the minus sign, so neither part can carry
    one.  The burst is at most 2^63 - 1; the rate, a [float64], is at most
    2^63, which the largest [int] rounds up to. *)
Theorem ParseRateLimit_never_negative (s : string) :
  is_ascii s = true ->
  (0 <= fst (ParseRateLimit s) <= 2 ^ 63 /\ 0 <= snd (ParseRateLimit s) < 2 ^ 63) /\
  fst (ParseRateLimit "9223372036854775807-1") = 2 ^ 63.
Proof.
  intros _. split; [|vm_compute; reflexivity]. unfold ParseRateLimit.
  pose proof (split_char_pieces "-" (TrimSpace s)) as Hpieces.
  destruct (Str.split_char "-" (TrimSpace s)) as [|p0 [|p1 [|p2 ps]]];
    try (simpl; lia).
  inversion Hpieces as [|? ? H0 Hrest]; subst.
  inversion Hrest as [|? ? H1 _]; subst.
  destruct (Atoi p0) as [r|] eqn:E0; [|simpl; lia].
  destruct (Atoi p1) as [b|] eqn:E1; [|simpl; lia].
  cbn [fst snd].
  split; [apply of_int64_bounds, (Atoi_unsigned p0) | apply (Atoi_unsigned p1)]; assumption.
Qed.

(** [LoadConfig]: a variable that is unset or empty gives the documented
    default (port 8080, size 1GB, 5 concurrent streams, rate 1-5), each
    independently of the others; a [GRAB_MAX_CONCURRENT] that is not an
    integer gives 5; the size cap is the parse of the size text that is kept
    for the info endpoint, and that text is the variable as it was given. *)
Theorem LoadConfig_defaults (Getenv : string -> string) :
  let cfg := LoadConfig Getenv in
  (Getenv "PORT" = EmptyString -> Port cfg = "8080"%string) /\
  (Getenv "PORT" <> EmptyString -> Port cfg = Getenv "PORT") /\
  GrabSecret cfg = Getenv "GRAB_SECRET" /\
  MaxSize cfg = ParseSize (MaxSizeStr cfg) /\
  (Getenv "GRAB_MAX_SIZE" = EmptyString -> MaxSizeStr cfg = "1GB"%string /\ MaxSize cfg = GiB) /\
  (Getenv "GRAB_MAX_SIZE" <> EmptyString -> MaxSizeStr cfg = Getenv "GRAB_MAX_SIZE") /\
  (Getenv "GRAB_MAX_CONCURRENT" = EmptyString \/
   Strconv.Atoi (Getenv "GRAB_MAX_CONCURRENT") = None -> MaxConcurrent cfg = 5) /\
  (forall n, Strconv.Atoi (Getenv "GRAB_MAX_CONCURRENT") = Some n -> MaxConcurrent cfg = n) /\
  (Getenv "GRAB_RATE_LIMIT" = EmptyString -> RateLimit cfg = 1 /\ RateBurst cfg = 5) /\
  (Getenv "GRAB_RATE_LIMIT" <> EmptyString ->
     (RateLimit cfg, RateBurst cfg) = ParseRateLimit (Getenv "GRAB_RATE_LIMIT")).
Proof.
  intros cfg. subst cfg. unfold LoadConfig.
  destruct (ParseRateLimit
              (if Str.is_empty (Getenv "GRAB_RATE_LIMIT") then "1-5"%string
               else Getenv "GRAB_RATE_LIMIT")) as [r b] eqn:Hrate.
  simpl.
  repeat match goal with |- _ /\ _ => split end.
  - now intros ->.
  - intros H. now rewrite (is_empty_false _ H).
  - reflexivity.
  - reflexivity.
  - intros ->. split; reflexivity.
  - intros H. now rewrite (is_empty_false _ H).
  - intros [-> | H]; [reflexivity|]. rewrite H.
    now destruct (negb (Str.is_empty (Getenv "GRAB_MAX_CONCURRENT"))).
  - intros n H. rewrite H. destruct (Getenv "GRAB_MAX_CONCURRENT"); [discriminate H | reflexivity].
  - intros H. rewrite H in Hrate. vm_compute in Hrate. injection Hrate as <- <-. auto.
  - intros H. rewrite (is_empty_false _ H) in Hrate. now rewrite Hrate.
Qed.

End Parsers.

(** ** The limiter table over time *)

Section Table.

Context `{RL : RateLib}.

(** The clock only moves forward during a sweep. *)
Lemma sweep_clock_monotone l (m : gmap string clientLimiter) c :
  Time.reading c <= Time.reading (snd (fold_left sweep_entry l (m, c))).
Proof.
  revert m c. induction l as [|[k e] l IH]; intros m c; [simpl; lia|].
  simpl. unfold sweep_entry at 2; simpl. unfold Time.Since.
  destruct (Time.Now c) as [now c'] eqn:Hnow.
  apply Now_monotone in Hnow as [Hle Hc'].
  etransitivity; [|apply IH]. lia.
Qed.

(** What the sweep leaves in the table was there before, unchanged. *)
Lemma sweep_only_deletes l (m : gmap string clientLimiter) c ip e :
  fst (fold_left sweep_entry l (m, c)) !! ip = Some e -> m !! ip = Some e.
Proof.
  revert m c. induction l as [|[k e'] l IH]; intros m c; [auto|].
  simpl. unfold sweep_entry at 2; simpl.
  destruct (Time.Since (lastSeen e') c) as [since c'].
  intros H. apply IH in H. destruct (staleAfter <? since); [|exact H].
  now apply lookup_delete_Some in H as [_ H].
Qed.

(** An entry that is not stale by the end of the sweep is kept. *)
Lemma sweep_keeps_recent l (m : gmap string clientLimiter) c ip e :
  m !! ip = Some e ->
  (forall e', (ip, e') ∈ l -> e' = e) ->
  Time.Sub (Time.reading (snd (fold_left sweep_entry l (m, c)))) (lastSeen e) <= staleAfter ->
  fst (fold_left sweep_entry l (m, c)) !! ip = Some e.
Proof.
  revert m c. induction l as [|[k e'] l IH]; intros m c Hm Hl Hrecent; [exact Hm|].
  simpl in *. unfold sweep_entry at 2 in Hrecent. unfold sweep_entry at 2. simpl in *.
  unfold Time.Since in *.
  destruct (Time.Now c) as [now c'] eqn:Hnow.
  apply Now_monotone in Hnow as [Hle Hc'].
  apply IH; [| intros e'' Hin; apply Hl; apply elem_of_cons; now right | exact Hrecent].
  destruct (decide (k = ip)) as [->|Hne].
  - assert (e' = e) as -> by (apply Hl; apply elem_of_cons; now left).
    replace (staleAfter <? Time.Sub now (lastSeen e)) with false; [exact Hm|].
    symmetry. apply Z.ltb_ge. etransitivity; [|exact Hrecent].
    apply Sub_monotone.
    pose proof (sweep_clock_monotone l
                  (if staleAfter <? Time.Sub now (lastSeen e) then delete ip m else m) c').
    lia.
  - destruct (staleAfter <? Time.Sub now (lastSeen e')); [|exact Hm].
    now rewrite lookup_delete_ne.
Qed.

(** The sweep never evicts an entry that is still recent when the sweep
    ends, and never changes an entry: an entry of the table whose [lastSeen]
    is at most 180 seconds before the clock reading at the end of [Cleanup]
    is in the table afterwards as it was; every entry of the table afterwards
    was in it before, unchanged; the rate and the burst are unchanged. *)
Theorem Cleanup_keeps_recent (i : IPRateLimiter) (c : Time.Clock) (ip : string)
        (e : clientLimiter) :
  (ips i !! ip = Some e ->
   Time.Sub (Time.reading (snd (Cleanup i c))) (lastSeen e) <= 180 * Time.Second ->
   ips (fst (Cleanup i c)) !! ip = Some e) /\
  (ips (fst (Cleanup i c)) !! ip = Some e -> ips i !! ip = Some e) /\
  limit (fst (Cleanup i c)) = limit i /\
  burst (fst (Cleanup i c)) = burst i.
Proof.
  unfold Cleanup.
  destruct (fold_left sweep_entry (map_to_list (ips i)) (ips i, c)) as [m c'] eqn:Hf.
  simpl. split; [|split; [|split; reflexivity]].
  - intros Hin Hrecent.
    change m with (fst (m, c')). rewrite <- Hf.
    apply sweep_keeps_recent; [exact Hin | |].
    + intros e' He'. apply elem_of_map_to_list in He'. congruence.
    + rewrite Hf. simpl. now rewrite staleAfter_seconds.
  - intros Hout. change m with (fst (m, c')) in Hout. rewrite <- Hf in Hout.
    now apply sweep_only_deletes in Hout.
Qed.

(** [GetLimiter] followed by [Allow] on the table: the first request of a
    key adds one entry whose bucket is a new one, made from the configured
    rate and burst, after its first [Allow]; a later request adds none and
    goes on with the bucket stored by the previous one. *)
Theorem allow_creates_bucket_once (ip : string) (wd : World) :
  let tbl := ipLimiter wd in
  let out := ipLimiter (snd (allow ip wd)) in
  let t := fst (Time.Now (snd (Time.Now (clock wd)))) in
  (forall e, ips tbl !! ip = Some e ->
     size (ips out) = size (ips tbl) /\
     limiter <$> (ips out !! ip) = Some (snd (Allow t (limiter e)))) /\
  (ips tbl !! ip = None ->
     size (ips out) = S (size (ips tbl)) /\
     limiter <$> (ips out !! ip) = Some (snd (Allow t (NewLimiter (limit tbl) (burst tbl))))) /\
  limit out = limit tbl /\ burst out = burst tbl.
Proof.
  intros tbl out t. subst tbl out t. unfold allow, GetLimiter.
  destruct (Time.Now (clock wd)) as [now c1]. simpl.
  destruct (Time.Now c1) as [now2 c2]. simpl.
  destruct (Allow now2 _) as [ok lim'] eqn:Hallow. simpl.
  rewrite alter_insert_eq, lookup_insert_eq, map_size_insert. simpl.
  split; [|split; [|split; reflexivity]].
  - intros e He. rewrite He in *. simpl. split; [reflexivity|].
    now rewrite Hallow.
  - intros Hnone. rewrite Hnone in *. simpl. split; [reflexivity|].
    now rewrite Hallow.
Qed.

End Table.

(** ** What the stream handler leaves alone *)

Section StreamState.

Context `{RL : RateLib}.

(** Case analysis on the path taken by [stream]. *)
Ltac stream_paths :=
  unfold stream;
  repeat match goal with
         | |- context [if ?b then _ else _] => destruct b
         | |- context [match ?x with inl _ => _ | inr _ => _ end] => destruct x
         end.

Lemma stream_shared net cfg r wd :
  ipLimiter (stream net cfg r wd) = ipLimiter wd /\ clock (stream net cfg r wd) = clock wd.
Proof.
  stream_paths; try (split; reflexivity).
  destruct (Io.res_err _); split; reflexivity.
Qed.

Lemma stream_logs net cfg r wd :
  logs (stream net cfg r wd) = logs wd \/
  exists e, e <> Io.ErrNil /\ logs (stream net cfg r wd) = logs wd ++ [LogStreamError e].
Proof.
  stream_paths; try (left; reflexivity).
  destruct (Io.res_err _) eqn:E; simpl;
    [left; reflexivity | right; eexists; split; [|reflexivity]; discriminate ..].
Qed.

Lemma handleStream_shared net cfg r wd :
  ipLimiter (handleStream net cfg r wd) = ipLimiter wd /\
  clock (handleStream net cfg r wd) = clock wd.
Proof.
  unfold handleStream. destruct (negb _); [simpl; auto|].
  destruct (try_send (sem wd)) as [s1|]; [|simpl; auto].
  simpl. destruct (stream_shared net cfg r (with_sem (fun _ => s1) wd)) as [Hl Hc].
  rewrite Hl, Hc. simpl. auto.
Qed.

(** [handleStream] gives back the slot it took and never touches the
    limiter table or the clock, on every path; it logs at most one entry,
    and only a relay error. *)
Theorem handleStream_leaves_shared_state
        (net : Upstream.Network) (cfg : Config) (r : Http.Request) (wd : World) :
  let out := handleStream net cfg r wd in
  sem out = sem wd /\
  ipLimiter out = ipLimiter wd /\
  clock out = clock wd /\
  (logs out = logs wd \/
   exists e, e <> Io.ErrNil /\ logs out = logs wd ++ [LogStreamError e]).
Proof.
  intros out. subst out. split; [apply handleStream_sem|].
  unfold handleStream. destruct (negb _); [simpl; auto|].
  destruct (try_send (sem wd)) as [s1|]; [|simpl; auto].
  simpl.
  destruct (stream_shared net cfg r (with_sem (fun _ => s1) wd)) as [Hl Hc].
  rewrite Hl, Hc. simpl. repeat split.
  apply (stream_logs net cfg r (with_sem (fun _ => s1) wd)).
Qed.

(** A request refused before the upstream is contacted (wrong method, no
    free slot, no [url]) gets its response whatever the network would have
    answered. *)
Theorem handleStream_refusal_ignores_upstream
        (net net' : Upstream.Network) (cfg : Config) (r : Http.Request) (wd : World) :
  Http.Method r <> Http.MethodGet \/
  (chan_cap (sem wd) <= chan_len (sem wd))%nat \/
  Http.Get (Http.Query r) "url" = EmptyString ->
  handleStream net cfg r wd = handleStream net' cfg r wd.
Proof.
  intros H. unfold handleStream.
  destruct (String.eqb (Http.Method r) Http.MethodGet) eqn:Hm; [|reflexivity].
  simpl negb. cbv iota.
  destruct H as [H|[H|H]].
  - apply String.eqb_eq in Hm. contradiction.
  - now rewrite (try_send_full _ H).
  - destruct (try_send (sem wd)); [|reflexivity].
    simpl. unfold stream. now rewrite H.
Qed.

(** On a response that is not yet committed, the status [handleStream]
    commits is 200, 400, 405, 413, 502 or 503, or none at all (an empty
    relay); the upstream's own status is never passed on. *)
Theorem handleStream_status_codes
        (net : Upstream.Network) (cfg : Config) (r : Http.Request) (wd : World) :
  Http.wroteHeader (w wd) = false ->
  Http.status (w (handleStream net cfg r wd)) = Http.status (w wd) \/
  In (Http.status (w (handleStream net cfg r wd))) [200; 400; 405; 413; 502; 503].
Proof.
  intros Hfresh. unfold handleStream.
  destruct (negb _).
  { right. unfold reply. simpl. rewrite (Error_status _ _ _ Hfresh). simpl. auto. }
  destruct (try_send (sem wd)) as [s1|].
  2:{ right. unfold reply. simpl. rewrite (Error_status _ _ _ Hfresh). simpl. tauto. }
  simpl. unfold stream.
  set (url := Http.Get (Http.Query r) "url").
  destruct (Str.is_empty url).
  { right. unfold reply. simpl. rewrite (Error_status _ _ _ Hfresh). simpl. tauto. }
  destruct (negb _).
  { right. unfold reply. simpl. rewrite (Error_status _ _ _ Hfresh). simpl. tauto. }
  destruct (Upstream.Do net Http.MethodGet url) as [err|resp].
  { right. unfold reply. simpl. rewrite (Error_status _ _ _ Hfresh). simpl. tauto. }
  destruct (400 <=? Upstream.StatusCode resp).
  { right. unfold reply. simpl. rewrite (Error_status _ _ _ Hfresh). simpl. tauto. }
  destruct (MaxSize cfg <? Upstream.ContentLength resp).
  { right. unfold reply. simpl. rewrite (Error_status _ _ _ Hfresh). simpl. tauto. }
  assert (Hst : Http.status (Io.res_dst (Io.Copy (butler url resp (w wd))
                   (Io.LimitReader (Upstream.Body resp) (MaxSize cfg)))) = Http.status (w wd) \/
                Http.status (Io.res_dst (Io.Copy (butler url resp (w wd))
                   (Io.LimitReader (Upstream.Body resp) (MaxSize cfg)))) = 200).
  { unfold Io.Copy.
    match goal with |- context [Io.copy_loop ?b ?st] =>
      destruct (copy_loop_status b st) as [H|H] end.
    - left. rewrite H. simpl. now destruct (butler_rest url resp (w wd)) as (_ & _ & -> & _).
    - right. exact H. }
  destruct (Io.res_err _); simpl; destruct Hst as [-> | ->]; simpl; auto.
Qed.

End StreamState.

(** ** Relay failures *)

Section RelayFailures.

Context `{RL : RateLib}.

Import Io.

(** [Write] to a client that takes [k] more bytes. *)
Lemma Write_limited p rw k :
  Http.room rw = Some k ->
  ((length p <= k)%nat ->
     snd (Http.Write p rw) = true /\
     Http.body (fst (fst (Http.Write p rw))) = Http.body rw ++ p /\
     Http.room (fst (fst (Http.Write p rw))) = Some (k - length p)%nat) /\
  ((k < length p)%nat ->
     snd (Http.Write p rw) = false /\
     Http.body (fst (fst (Http.Write p rw))) = Http.body rw ++ firstn k p).
Proof.
  intros Hroom. unfold Http.Write. rewrite WriteHeader_room, Hroom. split; intros Hk.
  - apply Nat.leb_le in Hk. rewrite Hk. simpl. now rewrite WriteHeader_body.
  - apply Nat.leb_gt in Hk. rewrite Hk. simpl. now rewrite WriteHeader_body.
Qed.

(** A client that stops after [k] bytes gets the first [k] bytes of what the
    limited source can deliver, and the copy ends with a write error when
    that is not all of it. *)
Lemma copy_loop_client_limit buf st k :
  Http.room (dst st) = Some k ->
  Http.body (res_dst (copy_loop buf st)) =
    Http.body (dst st) ++ firstn k (allowance (src st)) /\
  ((k < length (allowance (src st)))%nat -> res_err (copy_loop buf st) = ErrWrite).
Proof.
  remember (variant st) as n eqn:Hn. revert st k Hn.
  induction n as [n IH] using lt_wf_ind. intros st k Hn Hroom. subst n.
  rewrite copy_loop_eq.
  destruct (copy_step buf st) as [st'|r] eqn:Hstep.
  - pose proof (copy_step_decreases _ _ _ Hstep) as Hdec.
    unfold copy_step in Hstep.
    destruct (LimitedRead (Pos.to_nat buf) (src st)) as [[p er] src'] eqn:Hread.
    apply LimitedRead_allowance in Hread as [Hal _]; [|lia].
    destruct (0 <? length p)%nat eqn:Hp.
    + destruct (Write_limited p (dst st) k Hroom) as [Hfit Hover].
      destruct (Http.Write p (dst st)) as [[d' nw] wok] eqn:Hwr. simpl in *.
      destruct wok; simpl in Hstep; [|discriminate].
      destruct er; try discriminate. injection Hstep as <-.
      assert (Hle : (length p <= k)%nat).
      { destruct (Nat.le_gt_cases (length p) k) as [H|H]; [exact H|].
        destruct (Hover H) as [? _]. discriminate. }
      destruct (Hfit Hle) as (_ & Hbody & Hroom').
      destruct (IH _ Hdec _ (k - length p)%nat eq_refl Hroom') as [IHb IHe].
      simpl in *. rewrite Hal. split.
      * rewrite IHb, Hbody, <- app_assoc. f_equal.
        rewrite firstn_app, (@firstn_all2 _ k p) by lia. reflexivity.
      * intros Hk. apply IHe. rewrite length_app in Hk. lia.
    + apply Nat.ltb_ge in Hp. assert (p = []) as -> by (destruct p; simpl in *; [auto|lia]).
      simpl in Hstep. destruct er; try discriminate. injection Hstep as <-.
      destruct (IH _ Hdec _ k eq_refl Hroom) as [IHb IHe].
      simpl in *. rewrite Hal. simpl. auto.
  - clear IH. unfold copy_step in Hstep.
    destruct (LimitedRead (Pos.to_nat buf) (src st)) as [[p er] src'] eqn:Hread.
    apply LimitedRead_allowance in Hread as [Hal Herr]; [|lia].
    destruct (0 <? length p)%nat eqn:Hp.
    + destruct (Write_limited p (dst st) k Hroom) as [Hfit Hover].
      destruct (Http.Write p (dst st)) as [[d' nw] wok] eqn:Hwr. simpl in *.
      destruct wok; simpl in Hstep.
      * assert (Hal' : allowance (src st) = []).
        { apply Herr. destruct er; try discriminate; congruence. }
        rewrite Hal' in Hal. symmetry in Hal. apply app_eq_nil in Hal as [-> _].
        simpl in Hp. discriminate.
      * injection Hstep as <-. simpl.
        assert (Hgt : (k < length p)%nat).
        { destruct (Nat.le_gt_cases (length p) k) as [H|H]; [|exact H].
          destruct (Hfit H) as [? _]. discriminate. }
        destruct (Hover Hgt) as [_ Hbody]. rewrite Hbody, Hal. split; [|reflexivity].
        f_equal. rewrite firstn_app. replace (k - length p)%nat with 0%nat by lia.
        simpl. now rewrite app_nil_r.
    + apply Nat.ltb_ge in Hp. assert (p = []) as -> by (destruct p; simpl in *; [auto|lia]).
      simpl in Hstep.
      assert (Hnil : allowance (src st) = []).
      { apply Herr. destruct er; try discriminate; congruence. }
      rewrite Hnil, firstn_nil, app_nil_r.
      destruct er; try discriminate; injection Hstep as <-; simpl;
        (split; [reflexivity | intros; lia]).
Qed.

(** What a read through the limit reports, case by case. *)
Lemma LimitedRead_cases k l p er l' :
  (1 <= k)%nat ->
  LimitedRead k l = (p, er, l') ->
  match er with
  | ErrNil =>
      broken (R l') = broken (R l) /\
      offered (R l) = p ++ offered (R l') /\
      N l' = N l - Z.of_nat (length p)
  | EOF => p = [] /\ (N l <= 0 \/ (offered (R l) = [] /\ broken (R l) = false))
  | ErrUnexpected => p = [] /\ 0 < N l /\ offered (R l) = [] /\ broken (R l) = true
  | ErrWrite => False
  end.
Proof.
  intros Hk. unfold LimitedRead.
  destruct (Z.leb_spec (N l) 0) as [Hn|Hn].
  - intros [= <- <- <-]. auto.
  - unfold Read, offered. destruct (R l) as [[|c cs] b]; simpl.
    + destruct b; intros [= <- <- <-]; simpl; auto.
    + destruct (length c <=? _)%nat; intros [= <- <- <-]; simpl.
      * auto.
      * repeat split. now rewrite app_assoc, firstn_skipn.
Qed.

(** With a client that takes everything, the copy fails only when the
    upstream connection drops before the cap is reached. *)
Lemma copy_loop_upstream_error buf st :
  Http.room (dst st) = None ->
  res_err (copy_loop buf st) =
  if broken (R (src st)) && (Z.of_nat (length (offered (R (src st)))) <? N (src st))
  then ErrUnexpected else ErrNil.
Proof.
  remember (variant st) as n eqn:Hn. revert st Hn.
  induction n as [n IH] using lt_wf_ind. intros st Hn Hroom. subst n.
  rewrite copy_loop_eq.
  destruct (copy_step buf st) as [st'|r] eqn:Hstep.
  - pose proof (copy_step_decreases _ _ _ Hstep) as Hdec.
    unfold copy_step in Hstep.
    destruct (LimitedRead (Pos.to_nat buf) (src st)) as [[p er] src'] eqn:Hread.
    apply LimitedRead_cases in Hread; [|lia].
    assert (Hst' : er = ErrNil /\ src st' = src' /\ Http.room (dst st') = None).
    { destruct (0 <? length p)%nat.
      - destruct (Http.Write p (dst st)) as [[d' nw] wok] eqn:Hwr.
        apply Write_sends in Hwr as (_ & _ & Hr). destruct (Hr Hroom) as [-> Hroom'].
        simpl in Hstep. destruct er; try discriminate. injection Hstep as <-. auto.
      - simpl in Hstep. destruct er; try discriminate. injection Hstep as <-. auto. }
    destruct Hst' as (-> & Hsrc & Hroom').
    rewrite (IH _ Hdec st' eq_refl Hroom'), Hsrc.
    destruct Hread as (Hb & Hoff & HN). rewrite Hb, Hoff, HN, length_app.
    f_equal. f_equal.
    destruct (Z.ltb_spec (Z.of_nat (length (offered (R src')))) (N (src st) - Z.of_nat (length p))),
      (Z.ltb_spec (Z.of_nat (length p + length (offered (R src')))) (N (src st)));
      try reflexivity; lia.
  - clear IH. unfold copy_step in Hstep.
    destruct (LimitedRead (Pos.to_nat buf) (src st)) as [[p er] src'] eqn:Hread.
    apply LimitedRead_cases in Hread; [|lia].
    assert (Hr : res_err r = match er with EOF => ErrNil | e => e end /\ er <> ErrNil).
    { destruct (0 <? length p)%nat.
      - destruct (Http.Write p (dst st)) as [[d' nw] wok] eqn:Hwr.
        apply Write_sends in Hwr as (_ & _ & Hr). destruct (Hr Hroom) as [-> Hroom'].
        simpl in Hstep. destruct er; try discriminate; injection Hstep as <-;
          simpl; split; auto; discriminate.
      - simpl in Hstep. destruct er; try discriminate; injection Hstep as <-;
          simpl; split; auto; discriminate. }
    destruct Hr as [-> Hne]. destruct er; try contradiction.
    + destruct Hread as (_ & [Hn0 | [Hoff Hb]]).
      * replace (Z.of_nat (length (offered (R (src st)))) <? N (src st)) with false
          by (symmetry; apply Z.ltb_ge; lia).
        now rewrite andb_false_r.
      * now rewrite Hb.
    + destruct Hread as (_ & Hn0 & Hoff & Hb). rewrite Hb, Hoff.
      cbn [length andb]. change (Z.of_nat 0) with 0.
      destruct (Z.ltb_spec 0 (N (src st))); [reflexivity | lia].
Qed.

(** Once the status is committed the copy cannot change it, and a copy that
    has anything to deliver commits 200 on an uncommitted response. *)
Lemma copy_loop_commits buf st :
  (Http.wroteHeader (dst st) = true ->
     Http.status (res_dst (copy_loop buf st)) = Http.status (dst st)) /\
  (Http.wroteHeader (dst st) = false -> allowance (src st) <> [] ->
     Http.status (res_dst (copy_loop buf st)) = 200).
Proof.
  remember (variant st) as n eqn:Hn. revert st Hn.
  induction n as [n IH] using lt_wf_ind. intros st Hn. subst n.
  rewrite copy_loop_eq.
  assert (Hwrite : forall p,
             Http.wroteHeader (fst (fst (Http.Write p (dst st)))) = true /\
             (Http.wroteHeader (dst st) = true ->
                Http.status (fst (fst (Http.Write p (dst st)))) = Http.status (dst st)) /\
             (Http.wroteHeader (dst st) = false ->
                Http.status (fst (fst (Http.Write p (dst st)))) = 200)).
  { intros p. unfold Http.Write, Http.WriteHeader.
    destruct (Http.wroteHeader (dst st)); simpl;
      (destruct (Http.room (dst st)); [destruct (_ <=? _)%nat|]); simpl;
      repeat split; auto; discriminate. }
  destruct (copy_step buf st) as [st'|r] eqn:Hstep.
  - pose proof (copy_step_decreases _ _ _ Hstep) as Hdec.
    destruct (IH _ Hdec st' eq_refl) as [IHt IHf].
    unfold copy_step in Hstep.
    destruct (LimitedRead (Pos.to_nat buf) (src st)) as [[p er] src'] eqn:Hread.
    apply LimitedRead_allowance in Hread as [Hal _]; [|lia].
    destruct (0 <? length p)%nat eqn:Hp.
    + destruct (Hwrite p) as (Hc & Ht & Hf).
      destruct (Http.Write p (dst st)) as [[d' nw] wok]. simpl in *.
      destruct wok; simpl in Hstep; [|discriminate].
      destruct er; try discriminate. injection Hstep as <-. simpl in *.
      split.
      * intros H. rewrite (IHt Hc). auto.
      * intros H _. rewrite (IHt Hc). auto.
    + apply Nat.ltb_ge in Hp. assert (p = []) as -> by (destruct p; simpl in *; [auto|lia]).
      simpl in Hstep. destruct er; try discriminate. injection Hstep as <-. simpl in *.
      split; [exact IHt|]. intros H Hne. apply IHf; [exact H|]. now rewrite <- Hal.
  - clear IH. unfold copy_step in Hstep.
    destruct (LimitedRead (Pos.to_nat buf) (src st)) as [[p er] src'] eqn:Hread.
    apply LimitedRead_allowance in Hread as [Hal Herr]; [|lia].
    destruct (0 <? length p)%nat eqn:Hp.
    + destruct (Hwrite p) as (Hc & Ht & Hf).
      destruct (Http.Write p (dst st)) as [[d' nw] wok]. simpl in *.
      destruct wok; simpl in Hstep.
      * destruct er; try discriminate; injection Hstep as <-; simpl; auto.
      * injection Hstep as <-. simpl. auto.
    + apply Nat.ltb_ge in Hp. assert (p = []) as -> by (destruct p; simpl in *; [auto|lia]).
      simpl in Hstep.
      assert (Hnil : allowance (src st) = []).
      { apply Herr. destruct er; try discriminate; congruence. }
      destruct er; try discriminate; injection Hstep as <-; simpl;
        (split; [reflexivity | intros _ Hne; contradiction]).
Qed.

End RelayFailures.

(** ** The relay, seen from the handler *)

Section Relay.

Context `{RL : RateLib}.

(** The response and the log of a request that is relayed. *)
Lemma handleStream_relayed net cfg r wd url resp :
  answered net r wd url resp ->
  Upstream.StatusCode resp < 400 ->
  Upstream.ContentLength resp <= MaxSize cfg ->
  let res := Io.Copy (butler url resp (w wd))
                     (Io.LimitReader (Upstream.Body resp) (MaxSize cfg)) in
  w (handleStream net cfg r wd) = Io.res_dst res /\
  logs (handleStream net cfg r wd) =
    logs wd ++ match Io.res_err res with
               | Io.ErrNil => []
               | e => [LogStreamError e]
               end.
Proof.
  intros (Hm & Hfree & Hurl & Hne & Hreq & Hdo) Hcode Hlen res. subst res.
  unfold handleStream. rewrite Hm, String.eqb_refl. simpl negb. cbv iota.
  rewrite (try_send_free _ Hfree). simpl.
  unfold stream. rewrite Hurl, (is_empty_false _ Hne), Hreq. simpl negb. cbv iota.
  rewrite Hdo.
  replace (400 <=? Upstream.StatusCode resp) with false by (symmetry; apply Z.leb_gt; lia).
  replace (MaxSize cfg <? Upstream.ContentLength resp) with false
    by (symmetry; apply Z.ltb_ge; lia).
  destruct (Io.res_err _); simpl; rewrite ?app_nil_r; auto.
Qed.

(** A client that stops taking bytes ends the relay: of a relayed request
    whose client takes only [k] more bytes, the response body gets the first
    [k] of the bytes the cap lets through, and when that is not all of them
    the failure is recorded in the log as a write error, and nowhere else. *)
Theorem relay_stops_with_the_client
        (net : Upstream.Network) (cfg : Config) (r : Http.Request) (wd : World)
        (url : string) (resp : Upstream.Response) (k : nat) :
  answered net r wd url resp ->
  Upstream.StatusCode resp < 400 ->
  Upstream.ContentLength resp <= MaxSize cfg ->
  Http.room (w wd) = Some k ->
  let passed := firstn (Z.to_nat (MaxSize cfg)) (Io.offered (Upstream.Body resp)) in
  Http.body (w (handleStream net cfg r wd)) = Http.body (w wd) ++ firstn k passed /\
  ((k < length passed)%nat ->
     logs (handleStream net cfg r wd) = logs wd ++ [LogStreamError Io.ErrWrite]).
Proof.
  intros Hans Hcode Hlen Hroom passed.
  destruct (handleStream_relayed _ _ _ _ _ _ Hans Hcode Hlen) as [Hw Hlog].
  destruct (butler_rest url resp (w wd)) as (Bb & Br & _ & _).
  destruct (copy_loop_client_limit
              (Io.bufsize (Io.LimitReader (Upstream.Body resp) (MaxSize cfg)))
              {| Io.src := Io.LimitReader (Upstream.Body resp) (MaxSize cfg);
                 Io.dst := butler url resp (w wd); Io.written := 0 |} k)
    as [Hbody Herr]; [simpl; now rewrite Br|].
  simpl in Hbody, Herr. rewrite Bb in Hbody. split.
  - rewrite Hw. exact Hbody.
  - intros Hk. rewrite Hlog. unfold Io.Copy. now rewrite (Herr Hk).
Qed.

(** An upstream that drops the connection is only logged: of a relayed
    request whose client takes every byte, the log gets one read-error entry
    when the upstream connection breaks before the cap is reached, and no
    entry otherwise. *)
Theorem relay_logs_upstream_drop
        (net : Upstream.Network) (cfg : Config) (r : Http.Request) (wd : World)
        (url : string) (resp : Upstream.Response) :
  answered net r wd url resp ->
  Upstream.StatusCode resp < 400 ->
  Upstream.ContentLength resp <= MaxSize cfg ->
  Http.room (w wd) = None ->
  logs (handleStream net cfg r wd) =
    logs wd ++
    if Io.broken (Upstream.Body resp)
       && (Z.of_nat (length (Io.offered (Upstream.Body resp))) <? MaxSize cfg)
    then [LogStreamError Io.ErrUnexpected] else [].
Proof.
  intros Hans Hcode Hlen Hroom.
  destruct (handleStream_relayed _ _ _ _ _ _ Hans Hcode Hlen) as [_ Hlog].
  destruct (butler_rest url resp (w wd)) as (_ & Br & _ & _).
  rewrite Hlog. unfold Io.Copy.
  rewrite copy_loop_upstream_error by (simpl; now rewrite Br).
  simpl. now destruct (_ && _).
Qed.

(** Once the relay has something to send, the response is a 200: whatever
    happens to the client or the upstream afterwards, a relayed request on an
    uncommitted response ends with status 200 when the cap lets at least one
    offered byte through. *)
Theorem relay_commits_200
        (net : Upstream.Network) (cfg : Config) (r : Http.Request) (wd : World)
        (url : string) (resp : Upstream.Response) :
  answered net r wd url resp ->
  Upstream.StatusCode resp < 400 ->
  Upstream.ContentLength resp <= MaxSize cfg ->
  Http.wroteHeader (w wd) = false ->
  firstn (Z.to_nat (MaxSize cfg)) (Io.offered (Upstream.Body resp)) <> [] ->
  Http.status (w (handleStream net cfg r wd)) = 200.
Proof.
  intros Hans Hcode Hlen Hfresh Hsome.
  destruct (handleStream_relayed _ _ _ _ _ _ Hans Hcode Hlen) as [Hw _].
  destruct (butler_rest url resp (w wd)) as (_ & _ & _ & Bw).
  rewrite Hw. unfold Io.Copy.
  apply copy_loop_commits; simpl; [now rewrite Bw | exact Hsome].
Qed.

(** The butler forwards three headers and no other: on a relayed request,
    every response header other than [Content-Length], [Content-Type] and
    [Content-Disposition] is as it was before the handler ran, whatever
    headers the upstream sent. *)
Theorem stream_sets_only_three_headers
        (net : Upstream.Network) (cfg : Config) (r : Http.Request) (wd : World)
        (url : string) (resp : Upstream.Response) (key : string) :
  answered net r wd url resp ->
  Upstream.StatusCode resp < 400 ->
  Upstream.ContentLength resp <= MaxSize cfg ->
  key <> "Content-Length"%string ->
  key <> "Content-Type"%string ->
  key <> "Content-Disposition"%string ->
  Http.RespHeader (w (handleStream net cfg r wd)) !! key = Http.RespHeader (w wd) !! key.
Proof.
  intros Hans Hcode Hlen H1 H2 H3.
  rewrite (handleStream_headers _ _ _ _ _ _ Hans Hcode Hlen).
  unfold butler.
  repeat match goal with
         | |- context [Str.is_empty ?x] => destruct (Str.is_empty x)
         | |- context [(?a <? ?b)%Z] => destruct (a <? b)%Z
         | |- context [(?a <? ?b)%nat] => destruct (a <? b)%nat
         end;
    simpl; unfold Http.Set_;
    repeat (rewrite lookup_insert_ne by congruence); reflexivity.
Qed.

(** The stream route, for a request that passes the admission gate: whatever
    the outcome (429, 503, 400, 502, 413 or a relay), the limiter table ends
    with an entry for the request's client key stamped with the time of the
    request, and every other entry is as it was. *)
Theorem stream_route_stamps_client
        (net : Upstream.Network) (cfg : Config) (r : Http.Request) (wd : World) :
  GrabSecret cfg = EmptyString \/
  Http.Get (Http.ReqHeader r) "X-Grab-Token" = GrabSecret cfg ->
  let out := streamRoute net cfg r wd in
  (exists e, ips (ipLimiter out) !! clientIP r = Some e /\
             lastSeen e = fst (Time.Now (clock wd))) /\
  (forall ip, ip <> clientIP r -> ips (ipLimiter out) !! ip = ips (ipLimiter wd) !! ip).
Proof.
  intros Hauth out. subst out.
  assert (Hroute : streamRoute net cfg r wd =
                   RateLimitMiddleware (handleStream net cfg) r wd).
  { unfold streamRoute, AuthMiddleware.
    destruct (Str.is_empty (GrabSecret cfg)) eqn:He; [reflexivity|].
    destruct Hauth as [H|H]; [rewrite H in He; discriminate|].
    now rewrite H, String.eqb_refl. }
  assert (Htbl : ipLimiter (RateLimitMiddleware (handleStream net cfg) r wd) =
                 ipLimiter (snd (allow (clientIP r) wd))).
  { unfold RateLimitMiddleware. destruct (allow (clientIP r) wd) as [[] wd1]; simpl.
    - now destruct (handleStream_shared net cfg r wd1) as [-> _].
    - reflexivity. }
  rewrite Hroute, Htbl. split.
  - apply allow_refreshes.
  - intros ip Hip. apply allow_other. congruence.
Qed.

End Relay.

(** ** The probe and info routes *)

Section Probe.

Context `{RL : RateLib}.

Lemma reply_shared msg code (wd : World) :
  sem (reply msg code wd) = sem wd /\
  ipLimiter (reply msg code wd) = ipLimiter wd /\
  clock (reply msg code wd) = clock wd.
Proof. unfold reply. simpl. auto. Qed.

Lemma handleProbe_shared net r wd :
  sem (handleProbe net r wd) = sem wd /\
  ipLimiter (handleProbe net r wd) = ipLimiter wd /\
  clock (handleProbe net r wd) = clock wd.
Proof.
  unfold handleProbe.
  destruct (_ && _); [apply reply_shared|].
  destruct (Str.is_empty _); [apply reply_shared|].
  destruct (negb _); [apply reply_shared|].
  destruct (Upstream.Do _ _ _) as [err|resp]; [apply reply_shared|].
  destruct (400 <=? _); [apply reply_shared|].
  destruct (Http.Write _ _) as [[w2 n] ok]. destruct ok; simpl; auto.
Qed.

(** Neither the probe route nor the info route is throttled: whatever the
    request, they take no slot of the semaphore, make or refresh no entry of
    the limiter table and do not read the clock. *)
Theorem probe_and_info_are_unthrottled
        (net : Upstream.Network) (encode : string -> Z -> list byte) (cfg : Config)
        (r : Http.Request) (wd : World) :
  (sem (probeRoute net cfg r wd) = sem wd /\
   ipLimiter (probeRoute net cfg r wd) = ipLimiter wd /\
   clock (probeRoute net cfg r wd) = clock wd) /\
  (sem (infoRoute encode cfg r wd) = sem wd /\
   ipLimiter (infoRoute encode cfg r wd) = ipLimiter wd /\
   clock (infoRoute encode cfg r wd) = clock wd).
Proof.
  split.
  - unfold probeRoute, AuthMiddleware.
    destruct (Str.is_empty _); [apply handleProbe_shared|].
    destruct (negb _); [apply reply_shared | apply handleProbe_shared].
  - unfold infoRoute, AuthMiddleware, handleInfo.
    destruct (Str.is_empty _); [simpl; auto|].
    destruct (negb _); [apply reply_shared | simpl; auto].
Qed.

(** A successful probe: for a [HEAD] or [GET] request that names a URL the
    upstream answers with a status below 400, the response is the JSON
    encoding of the declared length (as declared, -1 when unknown) and of
    the upstream's content type, written with [Content-Type:
    application/json]; it does not depend on the upstream body; on a fresh
    response the status is 200, and with a client that takes the bytes
    nothing is logged. *)
Theorem handleProbe_reports_length_and_type
        (net : Upstream.Network) (r : Http.Request) (wd : World)
        (url : string) (resp : Upstream.Response) :
  Http.Method r = Http.MethodHead \/ Http.Method r = Http.MethodGet ->
  Http.Get (Http.Query r) "url" = url ->
  url <> EmptyString ->
  Upstream.NewRequest_ok net Http.MethodHead url = true ->
  Upstream.Do net Http.MethodHead url = inr resp ->
  Upstream.StatusCode resp < 400 ->
  let payload := Upstream.EncodeProbe net (Upstream.ContentLength resp)
                   (Http.Get (Upstream.RHeader resp) "Content-Type") in
  let out := handleProbe net r wd in
  w out = fst (fst (Http.Write payload
                      (Http.set_header "Content-Type" "application/json" (w wd)))) /\
  Http.Get (Http.RespHeader (w out)) "Content-Type" = "application/json"%string /\
  (Http.wroteHeader (w wd) = false -> Http.status (w out) = 200) /\
  (Http.room (w wd) = None ->
     Http.body (w out) = Http.body (w wd) ++ payload /\ logs out = logs wd).
Proof.
  intros Hm Hurl Hne Hreq Hdo Hcode payload out. subst out.
  assert (E : handleProbe net r wd =
              let '(w2, _, ok) :=
                Http.Write payload (Http.set_header "Content-Type" "application/json" (w wd)) in
              if negb ok then log_entry LogEncodeError (with_w (fun _ => w2) wd)
              else with_w (fun _ => w2) wd).
  { unfold handleProbe.
    replace (negb (String.eqb (Http.Method r) Http.MethodHead)
             && negb (String.eqb (Http.Method r) Http.MethodGet)) with false
      by (destruct Hm as [-> | ->]; reflexivity).
    rewrite Hurl, (is_empty_false _ Hne), Hreq. simpl negb. cbv iota. rewrite Hdo.
    replace (400 <=? Upstream.StatusCode resp) with false by (symmetry; apply Z.leb_gt; lia).
    reflexivity. }
  rewrite E. clear E.
  set (w1 := Http.set_header "Content-Type" "application/json" (w wd)).
  pose proof (Write_sends payload w1) as Hws.
  destruct (Http.Write payload w1) as [[w2 n] ok] eqn:Hwr.
  destruct (Hws _ _ _ eq_refl) as (Hh & (p' & q & Ep & Eb & _ & Eq) & Hroom).
  assert (Hw : w (if negb ok then log_entry LogEncodeError (with_w (fun _ => w2) wd)
                  else with_w (fun _ => w2) wd) = w2) by (destruct ok; reflexivity).
  rewrite Hw. split; [reflexivity|]. split; [|split].
  - apply Get_lookup. rewrite Hh. subst w1. simpl. unfold Http.Set_.
    apply lookup_insert_eq.
  - intros Hfresh.
    assert (H200 : Http.status (fst (fst (Http.Write payload w1))) = 200).
    { unfold Http.Write, Http.WriteHeader. subst w1. simpl. rewrite Hfresh. simpl.
      destruct (Http.room (w wd)); [destruct (_ <=? _)%nat|]; reflexivity. }
    now rewrite Hwr in H200.
  - intros Hnone. destruct (Hroom Hnone) as [-> _]. simpl.
    rewrite Eb, Ep, (Eq eq_refl), app_nil_r. auto.
Qed.

(** The probe asks the upstream with [HEAD] only, also when it was itself
    asked with [GET]: two networks that agree on [HEAD] requests give the
    same probe result, whatever they would answer to anything else. *)
Theorem handleProbe_asks_with_HEAD
        (net net' : Upstream.Network) (r : Http.Request) (wd : World) :
  (forall url, Upstream.NewRequest_ok net Http.MethodHead url
               = Upstream.NewRequest_ok net' Http.MethodHead url) ->
  (forall url, Upstream.Do net Http.MethodHead url = Upstream.Do net' Http.MethodHead url) ->
  (forall size type, Upstream.EncodeProbe net size type = Upstream.EncodeProbe net' size type) ->
  handleProbe net r wd = handleProbe net' r wd.
Proof.
  intros Hreq Hdo Henc. unfold handleProbe.
  rewrite Hreq, Hdo.
  destruct (Upstream.Do net' Http.MethodHead _) as [err|resp]; [reflexivity|].
  now rewrite Henc.
Qed.

(** On a response that is not yet committed, the probe route commits one of
    200, 400, 401, 405 and 502; the upstream's own status is never passed
    on. *)
Theorem probeRoute_status_codes
        (net : Upstream.Network) (cfg : Config) (r : Http.Request) (wd : World) :
  Http.wroteHeader (w wd) = false ->
  In (Http.status (w (probeRoute net cfg r wd))) [200; 400; 401; 405; 502].
Proof.
  intros Hfresh.
  assert (Herr : forall msg code, In code [200; 400; 401; 405; 502] ->
                   In (Http.status (w (reply msg code wd))) [200; 400; 401; 405; 502]).
  { intros msg code Hin. unfold reply. simpl. now rewrite (Error_status _ _ _ Hfresh). }
  assert (Hprobe : In (Http.status (w (handleProbe net r wd))) [200; 400; 401; 405; 502]).
  { unfold handleProbe.
    destruct (_ && _); [apply Herr; simpl; tauto|].
    destruct (Str.is_empty _); [apply Herr; simpl; tauto|].
    destruct (negb _); [apply Herr; simpl; tauto|].
    destruct (Upstream.Do _ _ _) as [err|resp]; [apply Herr; simpl; tauto|].
    destruct (400 <=? _); [apply Herr; simpl; tauto|].
    set (w1 := Http.set_header "Content-Type" "application/json" (w wd)).
    set (payload := Upstream.EncodeProbe net _ _).
    assert (H200 : Http.status (fst (fst (Http.Write payload w1))) = 200).
    { unfold Http.Write, Http.WriteHeader. subst w1. simpl. rewrite Hfresh. simpl.
      destruct (Http.room (w wd)); [destruct (_ <=? _)%nat|]; reflexivity. }
    destruct (Http.Write payload w1) as [[w2 n] ok]. simpl in H200.
    destruct ok; simpl; rewrite H200; simpl; tauto. }
  unfold probeRoute, AuthMiddleware.
  destruct (Str.is_empty _); [exact Hprobe|].
  destruct (negb _); [apply Herr; simpl; tauto | exact Hprobe].
Qed.

End Probe.

(** ** The properties above on examples *)

Lemma ParseSize_number_with_unit_witness :
  ParseSize (Str.of_Z 500 +:+ "mb") = 500 * 1024 * 1024.
Proof.
  rewrite (ParseSize_number_with_unit 500 "mb" "MB" (1024 * 1024));
    [reflexivity | right; left; reflexivity | reflexivity].
Defined.

Lemma ParseSize_blank_witness : ParseSize "   " = 1073741824.
Proof. apply (ParseSize_blank "   "). reflexivity. Defined.

Lemma ParseRateLimit_round_trip_witness :
  ParseRateLimit (Str.of_Z 10 +:+ String "-" (Str.of_Z 20)) = (10, 20).
Proof.
  destruct (ParseRateLimit_round_trip 10 20) as (_ & H & _); [lia | lia |].
  apply H. lia.
Defined.

Lemma ParseRateLimit_never_negative_witness :
  0 <= fst (ParseRateLimit "-3-7") <= 2 ^ 63 /\ 0 <= snd (ParseRateLimit "-3-7") < 2 ^ 63.
Proof. apply (ParseRateLimit_never_negative "-3-7"). reflexivity. Defined.

Lemma LoadConfig_defaults_witness :
  let cfg := LoadConfig (Scenario.env "GRAB_MAX_CONCURRENT" "many") in
  Port cfg = "8080"%string /\ MaxSize cfg = GiB /\ MaxConcurrent cfg = 5 /\
  RateLimit cfg = 1 /\ RateBurst cfg = 5.
Proof.
  intros cfg.
  destruct (LoadConfig_defaults (Scenario.env "GRAB_MAX_CONCURRENT" "many"))
    as (H1 & _ & _ & _ & H5 & _ & H7 & _ & H9 & _).
  split; [apply H1; reflexivity|].
  split; [apply H5; reflexivity|].
  split; [apply H7; right; reflexivity|].
  apply H9; reflexivity.
Defined.

Lemma Cleanup_keeps_recent_witness :
  let idle := Sample.seen 5 0 in
  let busy := Sample.seen 2 (100 * Time.Second) in
  let tbl := {| ips := <["10.0.0.1" := idle]> (<["10.0.0.2" := busy]> ∅);
                limit := 1; burst := 5 |} in
  let c := {| Time.reading := 181 * Time.Second; Time.advances := [7%N; 7%N] |} in
  ips (fst (Cleanup tbl c)) !! "10.0.0.2" = Some busy.
Proof.
  intros idle busy tbl c.
  destruct (Cleanup_keeps_recent tbl c "10.0.0.2" busy) as [H _].
  apply H; [reflexivity | vm_compute; discriminate].
Defined.

Lemma allow_creates_bucket_once_witness :
  size (ips (ipLimiter (snd (allow "10.0.0.1" (Sample.world 1 0))))) = 1%nat.
Proof.
  destruct (allow_creates_bucket_once "10.0.0.1" (Sample.world 1 0)) as (_ & H & _).
  destruct (H ltac:(reflexivity)) as [Hsize _]. exact Hsize.
Defined.

Lemma handleStream_refusal_ignores_upstream_witness :
  let resp := Sample.response 200 3 ∅ [Sample.payload 3] in
  handleStream Sample.unreachable (Sample.cfg EmptyString 1024)
               (Sample.get "http://example.com/a.bin") (Sample.world 1 1) =
  handleStream (Sample.answering resp) (Sample.cfg EmptyString 1024)
               (Sample.get "http://example.com/a.bin") (Sample.world 1 1).
Proof.
  intros resp. apply handleStream_refusal_ignores_upstream.
  right. left. vm_compute. lia.
Defined.

Lemma handleStream_status_codes_witness :
  let out := handleStream Sample.unreachable (Sample.cfg EmptyString 1024)
                          (Sample.get "http://example.com/a.bin") (Sample.world 1 0) in
  Http.status (w out) = Http.status (w (Sample.world 1 0)) \/
  In (Http.status (w out)) [200; 400; 405; 413; 502; 503].
Proof. intros out. apply handleStream_status_codes. reflexivity. Defined.

(** Cap 5, 7 bytes offered, a client that takes 2. *)
Lemma relay_stops_with_the_client_witness :
  let resp := Sample.response 200 (-1) ∅ [Sample.payload 3; Sample.payload 4] in
  let out := handleStream (Sample.answering resp) (Sample.cfg EmptyString 5)
                          (Sample.get "http://example.com/a.bin") (Scenario.slow_client 2) in
  Http.body (w out) = Sample.payload 2 /\ logs out = [LogStreamError Io.ErrWrite].
Proof.
  intros resp out.
  destruct (relay_stops_with_the_client
              (Sample.answering resp) (Sample.cfg EmptyString 5)
              (Sample.get "http://example.com/a.bin") (Scenario.slow_client 2)
              "http://example.com/a.bin" resp 2)
    as [H1 H2]; [closed_example ..|].
  split; [exact H1 | apply H2; vm_compute; lia].
Defined.

(** Cap 5, an upstream that breaks off after 3 bytes. *)
Lemma relay_logs_upstream_drop_witness :
  let resp := Scenario.dropping 200 (-1) ∅ [Sample.payload 3] in
  let out := handleStream (Sample.answering resp) (Sample.cfg EmptyString 5)
                          (Sample.get "http://example.com/a.bin") (Sample.world 1 0) in
  logs out = [LogStreamError Io.ErrUnexpected].
Proof.
  intros resp out.
  apply (relay_logs_upstream_drop
           (Sample.answering resp) (Sample.cfg EmptyString 5)
           (Sample.get "http://example.com/a.bin") (Sample.world 1 0)
           "http://example.com/a.bin" resp); closed_example.
Defined.

Lemma relay_commits_200_witness :
  let resp := Scenario.dropping 200 (-1) ∅ [Sample.payload 3] in
  let out := handleStream (Sample.answering resp) (Sample.cfg EmptyString 5)
                          (Sample.get "http://example.com/a.bin") (Scenario.slow_client 0) in
  Http.status (w out) = 200.
Proof.
  intros resp out.
  apply (relay_commits_200
           (Sample.answering resp) (Sample.cfg EmptyString 5)
           (Sample.get "http://example.com/a.bin") (Scenario.slow_client 0)
           "http://example.com/a.bin" resp); closed_example.
Defined.

(** An upstream that sends a cookie: the response carries none. *)
Lemma stream_sets_only_three_headers_witness :
  let resp := Sample.response 200 3 (<["Set-Cookie" := ["id=1"]]> ∅) [Sample.payload 3] in
  let out := handleStream (Sample.answering resp) (Sample.cfg EmptyString 1024)
                          (Sample.get "http://example.com/a.bin") (Sample.world 1 0) in
  Http.RespHeader (w out) !! "Set-Cookie" = None.
Proof.
  intros resp out.
  apply (stream_sets_only_three_headers
           (Sample.answering resp) (Sample.cfg EmptyString 1024)
           (Sample.get "http://example.com/a.bin") (Sample.world 1 0)
           "http://example.com/a.bin" resp "Set-Cookie"); closed_example.
Defined.

(** A request refused for want of a slot still leaves its stamp. *)
Lemma stream_route_stamps_client_witness :
  let out := streamRoute Sample.unreachable (Sample.cfg EmptyString 1024)
                         (Sample.get "http://example.com/a.bin") (Sample.world 1 1) in
  exists e, ips (ipLimiter out) !! "10.0.0.7" = Some e /\ lastSeen e = 0.
Proof.
  intros out.
  destruct (stream_route_stamps_client Sample.unreachable (Sample.cfg EmptyString 1024)
              (Sample.get "http://example.com/a.bin") (Sample.world 1 1))
    as [H _]; [left; reflexivity|].
  exact H.
Defined.

(** A probe by [GET] of a 500-byte text. *)
Lemma handleProbe_reports_length_and_type_witness :
  let resp := Sample.response 200 500 (<["Content-Type" := ["text/plain"]]> ∅)
                              [Sample.payload 500] in
  let out := handleProbe (Scenario.head_only resp)
                         (Sample.get "http://example.com/a.txt") (Sample.world 1 0) in
  Http.status (w out) = 200 /\
  Http.body (w out) = Scenario.encode_probe 500 "text/plain".
Proof.
  intros resp out.
  destruct (handleProbe_reports_length_and_type
              (Scenario.head_only resp) (Sample.get "http://example.com/a.txt")
              (Sample.world 1 0) "http://example.com/a.txt" resp)
    as (_ & _ & H3 & H4); [right; reflexivity | closed_example ..|].
  split; [apply H3; reflexivity|].
  destruct (H4 ltac:(reflexivity)) as [Hb _]. exact Hb.
Defined.

Lemma handleProbe_asks_with_HEAD_witness :
  let resp := Sample.response 200 500 ∅ [] in
  handleProbe (Scenario.head_only resp) (Sample.get "http://example.com/a.txt")
              (Sample.world 1 0) =
  handleProbe (Scenario.any_method resp) (Sample.get "http://example.com/a.txt")
              (Sample.world 1 0).
Proof.
  intros resp. apply handleProbe_asks_with_HEAD; intros; reflexivity.
Defined.

Lemma probeRoute_status_codes_witness :
  In (Http.status (w (probeRoute Sample.unreachable (Sample.cfg "mysecret" 1024)
                                 (Sample.get "http://example.com/a.txt")
                                 (Sample.world 1 0))))
     [200; 400; 401; 405; 502].
Proof. apply probeRoute_status_codes. reflexivity. Defined.

(** ** The tables of [main_test.go] *)

Example TestParseSize_table :
  map ParseSize ["1GB"; "500MB"; "1KB"; "1024B"; "100"; EmptyString; "INVALID"]%string =
  [1024 * 1024 * 1024; 500 * 1024 * 1024; 1024; 1024; 100;
   1024 * 1024 * 1024; 1024 * 1024 * 1024].
Proof. vm_compute. reflexivity. Qed.

Example TestParseRateLimit_table :
  map ParseRateLimit ["1-5"; "10-20"; "invalid"; EmptyString]%string =
  [(1, 5); (10, 20); (1, 5); (1, 5)].
Proof. vm_compute. reflexivity. Qed.

Example TestAuthMiddleware_table :
  map (fun '(secret, token) =>
         Http.status (w (AuthMiddleware Sample.ok_handler secret
                           (Sample.request "GET" "192.0.2.1:1234" token EmptyString EmptyString)
                           (Sample.world 1 0))))
      [(EmptyString, EmptyString); ("mysecret", "mysecret");
       ("mysecret", "wrong"); ("mysecret", EmptyString)]%string =
  [200; 200; 401; 401].
Proof. vm_compute. reflexivity. Qed.
